(** * The sidebar's session service and OAuth token service

    A shallow embedding of [src/sidebar/session.js] (the [session] service
    and, in the same file, the [auth] service for publisher accounts).

    JavaScript values are embedded as a small inductive type, the closure
    variables of each service ([headers], [lastLoad], [lastLoadTime],
    [cachedToken]) as a record threaded through a state-and-exception monad,
    promises as indices into a table of promise states, and the calls made to
    collaborators ([$rootScope.$broadcast], [flash], [raven], [auth],
    [$resource] requests) as a trace of effects.  Every callback the services
    register on a promise is a transition fired by the environment. *)

From stdpp Require Import base strings list gmap pretty.
From Stdlib Require Import ZArith Lia Ascii.

Set Warnings "-register-all".
Local Open Scope Z_scope.

(** ** JavaScript values *)

Module JS.

Inductive jsval : Type :=
| JUndefined
| JNull
| JBool (b : bool)
| JNum (n : Z)
| JStr (s : string)
| JArr (elems : list jsval)
| JObj (fields : list (string * jsval)).

(** What a [throw] or a rejected promise carries. *)
Inductive exn : Type :=
| TypeError
| SyntaxError
| Error (msg : string)
| Reason (v : jsval).

Inductive completion (A : Type) : Type :=
| Normal (a : A)
| Throw (e : exn).
Arguments Normal {A} a.
Arguments Throw {A} e.

(** [if (v)], [!v], [v || w]: ToBoolean. *)
Definition truthy (v : jsval) : bool :=
  match v with
  | JUndefined | JNull => false
  | JBool b => b
  | JNum n => negb (n =? 0)
  | JStr s => negb (String.eqb s "")
  | JArr _ | JObj _ => true
  end.

Definition is_undefined (v : jsval) : bool :=
  match v with JUndefined => true | _ => false end.

Definition nullish (v : jsval) : bool :=
  match v with JUndefined | JNull => true | _ => false end.

(** [a === b].  Primitives compare by value.  Arrays and objects compare by
    reference; the embedding has no addresses and takes two array or object
    operands to be separate allocations. *)
Definition strict_eq (a b : jsval) : bool :=
  match a, b with
  | JUndefined, JUndefined => true
  | JNull, JNull => true
  | JBool x, JBool y => Bool.eqb x y
  | JNum x, JNum y => x =? y
  | JStr x, JStr y => String.eqb x y
  | _, _ => false
  end.

(** Values compared by value: everything but arrays and objects. *)
Definition primitive (v : jsval) : Prop :=
  match v with
  | JArr _ | JObj _ => False
  | _ => True
  end.

Fixpoint obj_get (fields : list (string * jsval)) (k : string) : jsval :=
  match fields with
  | [] => JUndefined
  | (k', v) :: rest => if String.eqb k' k then v else obj_get rest k
  end.

Fixpoint obj_set (fields : list (string * jsval)) (k : string) (v : jsval)
  : list (string * jsval) :=
  match fields with
  | [] => [(k, v)]
  | (k', v') :: rest =>
      if String.eqb k' k then (k, v) :: rest else (k', v') :: obj_set rest k v
  end.

Definition has_key (fields : list (string * jsval)) (k : string) : bool :=
  existsb (String.eqb k) (map fst fields).

(** [o.k] for one of the property names this file reads ([csrf], [userid],
    [groups], [model], [errors], [reason], [flash]): a [TypeError] on
    [undefined] and [null], the field of an object, and [undefined] on
    every other value (none of these names is defined on arrays, strings,
    numbers or booleans). *)
Definition get_prop (o : jsval) (k : string) : completion jsval :=
  match o with
  | JUndefined | JNull => Throw TypeError
  | JObj fields => Normal (obj_get fields k)
  | _ => Normal JUndefined
  end.

(** The value [o.k] evaluates to, where it does evaluate. *)
Definition prop (o : jsval) (k : string) : jsval :=
  match get_prop o k with
  | Normal v => v
  | Throw _ => JUndefined
  end.

(** [o.k = v] in strict mode: a [TypeError] unless [o] is an object (an
    array also takes the property, which the embedding of arrays as lists
    does not keep). *)
Definition set_prop (o : jsval) (k : string) (v : jsval) : completion jsval :=
  match o with
  | JObj fields => Normal (JObj (obj_set fields k v))
  | JArr elems => Normal (JArr elems)
  | _ => Throw TypeError
  end.

(** [key.charAt(0) === '$'] *)
Definition is_dollar (k : string) : bool :=
  match k with
  | String c _ => Ascii.eqb c "$"%char
  | EmptyString => false
  end.

(** [isScope(obj)]: [obj && obj.$evalAsync && obj.$watch]. *)
Definition is_scope (fields : list (string * jsval)) : bool :=
  truthy (obj_get fields "$evalAsync") && truthy (obj_get fields "$watch").

(** [angular.equals(o1, o2)] on JSON values that are separate allocations:
    primitives by value, arrays element by element in order, objects
    property by property, skipping [$]-prefixed names and treating an
    [undefined] property of [o2] that [o1] lacks as missing; two objects of
    which one is a scope are never equal.  ([isWindow] asks whether
    [obj.window === obj], which no JSON value answers yes to; JSON values
    are neither dates nor regular expressions nor functions.) *)
Fixpoint angular_equals (o1 o2 : jsval) {struct o1} : bool :=
  match o1, o2 with
  | JUndefined, JUndefined => true
  | JNull, JNull => true
  | JBool x, JBool y => Bool.eqb x y
  | JNum x, JNum y => x =? y
  | JStr x, JStr y => String.eqb x y
  | JArr l1, JArr l2 =>
      (fix elems (l1 l2 : list jsval) {struct l1} : bool :=
         match l1, l2 with
         | [], [] => true
         | x :: l1', y :: l2' => angular_equals x y && elems l1' l2'
         | _, _ => false
         end) l1 l2
  | JObj f1, JObj f2 =>
      negb (is_scope f1 || is_scope f2)
      && (fix props (f : list (string * jsval)) {struct f} : bool :=
            match f with
            | [] => true
            | (k, v) :: f' =>
                (is_dollar k || angular_equals v (obj_get f2 k)) && props f'
            end) f1
      && forallb (fun kv => has_key f1 (fst kv) || is_dollar (fst kv)
                            || is_undefined (snd kv)) f2
  | _, _ => false
  end.

(** Values as JavaScript builds them from data: no object lists a property
    twice, and none is a scope. *)
Inductive wf : jsval → Prop :=
| wf_undefined : wf JUndefined
| wf_null : wf JNull
| wf_bool b : wf (JBool b)
| wf_num n : wf (JNum n)
| wf_str s : wf (JStr s)
| wf_arr elems : Forall wf elems → wf (JArr elems)
| wf_obj fields :
    NoDup (map fst fields) → is_scope fields = false →
    Forall (λ kv, wf (snd kv)) fields →
    wf (JObj fields).

(** Plain data, as a JSON body gives it: arrays and objects of plain
    values, no property listed twice, none named with a [$] in front, none
    holding [undefined]. *)
Inductive plain : jsval → Prop :=
| plain_undefined : plain JUndefined
| plain_null : plain JNull
| plain_bool b : plain (JBool b)
| plain_num n : plain (JNum n)
| plain_str s : plain (JStr s)
| plain_arr elems : Forall plain elems → plain (JArr elems)
| plain_obj fields :
    NoDup (map fst fields) →
    Forall (λ kv, is_dollar (fst kv) = false ∧ is_undefined (snd kv) = false
                  ∧ plain (snd kv)) fields →
    plain (JObj fields).

(** Deep value equality in the words of the specification: primitives are
    equal to themselves, arrays when they have the same length and equal
    elements position by position, objects when they have the same property
    names and equal values under each name. *)
Inductive deep_eq : jsval → jsval → Prop :=
| deep_eq_undefined : deep_eq JUndefined JUndefined
| deep_eq_null : deep_eq JNull JNull
| deep_eq_bool b : deep_eq (JBool b) (JBool b)
| deep_eq_num n : deep_eq (JNum n) (JNum n)
| deep_eq_str s : deep_eq (JStr s) (JStr s)
| deep_eq_arr l1 l2 : Forall2 deep_eq l1 l2 → deep_eq (JArr l1) (JArr l2)
| deep_eq_obj f1 f2 :
    (∀ k, k ∈ map fst f1 ↔ k ∈ map fst f2) →
    (∀ k v1 v2, (k, v1) ∈ f1 → (k, v2) ∈ f2 → deep_eq v1 v2) →
    deep_eq (JObj f1) (JObj f2).

(** ** State, exceptions and a trace of collaborator calls *)

Definition M (S E A : Type) : Type := S → completion A * S * list E.

Definition ret {S E A} (a : A) : M S E A := λ s, (Normal a, s, []).

Definition bind {S E A B} (m : M S E A) (f : A → M S E B) : M S E B :=
  λ s, match m s with
       | (Normal a, s1, t1) =>
           match f a s1 with (c, s2, t2) => (c, s2, t1 ++ t2) end
       | (Throw e, s1, t1) => (Throw e, s1, t1)
       end.

Definition lift {S E A} (c : completion A) : M S E A := λ s, (c, s, []).
Definition gets {S E A} (f : S → A) : M S E A := λ s, (Normal (f s), s, []).
Definition modify {S E} (f : S → S) : M S E unit := λ s, (Normal tt, f s, []).
Definition emit {S E} (e : E) : M S E unit := λ s, (Normal tt, s, [e]).
Definition when {S E} (b : bool) (m : M S E unit) : M S E unit :=
  if b then m else ret tt.

End JS.

Import JS.

Declare Scope js_scope.
Delimit Scope js_scope with js.
Notation "x ← y ; z" := (bind y (λ x, z))
  (at level 20, y at level 100, z at level 200) : js_scope.
Notation "x ;; z" := (bind x (λ _, z))
  (at level 100, z at level 200, right associativity) : js_scope.

(** ** Configuration *)

Module Settings.

(** One entry of [settings.services]. *)
Record service : Type := Service { authority : jsval; grantToken : jsval }.

(** [settings.services]: [None] when it is not an array. *)
Definition services : Type := option (list service).

End Settings.

(** ** The session service *)

Module Session.

Local Open Scope js_scope.

Definition CACHE_TTL : Z := 5 * 60 * 1000.

(** [lastLoadTime] holds [undefined] (never assigned), [null] or a
    [Date.now()] reading. *)
Inductive timestamp : Type :=
| TUndefined
| TNull
| TNum (t : Z).

(** [!lastLoadTime] *)
Definition ts_falsy (t : timestamp) : bool :=
  match t with
  | TUndefined | TNull => true
  | TNum n => n =? 0
  end.

(** [Date.now() - lastLoadTime], taken only where [lastLoadTime] is truthy. *)
Definition elapsed (now : Z) (t : timestamp) : Z :=
  match t with
  | TNum n => now - n
  | TUndefined | TNull => now
  end.

(** The promise chains built by [load] and [logout] settle when the
    callbacks registered on them run; [Promise.resolve(model)] is settled
    from the start. *)
Inductive chain : Type := LoadChain | LogoutChain.

Inductive pstate : Type :=
| Pending (c : chain)
| Fulfilled (v : jsval)
| Rejected (e : exn).

Inductive event_name : Type := USER_CHANGED | GROUPS_CHANGED.

(** One action of the resource as [sessionActions] builds it: its own
    method and parameters, and the options every action is given.  The
    [headers] option is the one [headers] object of the service, not a copy,
    and [transformResponse] is [process]; they are not fields here: a request
    reads the header map when it is sent, and [process] runs when its
    response arrives. *)
Record action : Type := Action {
  action_name : string;
  method : string;
  params : list (string * jsval);
  withCredentials : bool;
}.

Definition login_action : action :=
  {| action_name := "login"; method := "POST";
     params := [("__formid__"%string, JStr "login")];
     withCredentials := true |}.

Definition logout_action : action :=
  {| action_name := "logout"; method := "POST";
     params := [("__formid__"%string, JStr "logout")];
     withCredentials := true |}.

Definition load_action : action :=
  {| action_name := "_load"; method := "GET"; params := [];
     withCredentials := true |}.

Definition sessionActions : list action :=
  [login_action; logout_action; load_action].

(** Calls made to collaborators, in program order. *)
Inductive effect : Type :=
| Broadcast (name : event_name) (payload : jsval)
| AuthClearCache
| RavenSetUserInfo (info : jsval)
| FlashMsg (kind : string) (msg : jsval)
| RetryPromiseOperation (p : nat)
| ProfileRead (params : jsval)
| ProfileUpdate (params body : jsval)
| ResourceRequest (a : action) (hdrs : gmap string jsval).

Record state : Type := State {
  headers : gmap string jsval;
  lastLoad : option nat;
  lastLoadTime : timestamp;
  session : jsval;
  promises : list pstate;
}.

Definition set_headers (h : gmap string jsval) (s : state) : state :=
  {| headers := h; lastLoad := lastLoad s; lastLoadTime := lastLoadTime s;
     session := session s; promises := promises s |}.
Definition set_lastLoad (p : option nat) (s : state) : state :=
  {| headers := headers s; lastLoad := p; lastLoadTime := lastLoadTime s;
     session := session s; promises := promises s |}.
Definition set_lastLoadTime (t : timestamp) (s : state) : state :=
  {| headers := headers s; lastLoad := lastLoad s; lastLoadTime := t;
     session := session s; promises := promises s |}.
Definition set_session (m : jsval) (s : state) : state :=
  {| headers := headers s; lastLoad := lastLoad s;
     lastLoadTime := lastLoadTime s; session := m; promises := promises s |}.
Definition set_promises (ps : list pstate) (s : state) : state :=
  {| headers := headers s; lastLoad := lastLoad s;
     lastLoadTime := lastLoadTime s; session := session s; promises := ps |}.

Definition T : Type → Type := M state effect.

(** A new promise object; its reference is its index in the table. *)
Definition new_promise (st : pstate) : T nat :=
  λ s, (Normal (length (promises s)), set_promises (promises s ++ [st]) s, []).

Definition settle (p : nat) (st : pstate) : T unit :=
  modify (λ s, set_promises (<[p := st]> (promises s)) s).

(** [annotationUI.getState().session] *)
Definition getState_session : T jsval := gets session.

(** Modelled from the spec: the store [annotationUI] is a collaborator
    outside this file; [updateSession(model)] writes [model] into the shared
    state store and replaces the previous value wholesale. *)
Definition updateSession (model : jsval) : T unit := modify (set_session model).

Section Service.

Variable settings_services : Settings.services.
(** [$http.defaults.xsrfHeaderName] *)
Variable xsrfHeaderName : string.
(** [angular.fromJson] on a response body. *)
Variable fromJson : string → completion jsval.
(** Whether [flash[kind]] is a method of the notice collaborator. *)
Variable flash_has : string → bool.

Definition getAuthority : jsval :=
  match settings_services with
  | Some (s0 :: _) => Settings.authority s0
  | _ => JNull
  end.

Definition update (now : Z) (model : jsval) : T jsval :=
  prevSession ← getState_session ;
  prev_csrf ← lift (get_prop prevSession "csrf") ;
  let isInitialLoad := negb (truthy prev_csrf) in
  userid ← lift (get_prop model "userid") ;
  prev_userid ← lift (get_prop prevSession "userid") ;
  let userChanged := negb (strict_eq userid prev_userid) in
  groups ← lift (get_prop model "groups") ;
  prev_groups ← lift (get_prop prevSession "groups") ;
  let groupsChanged := negb (angular_equals groups prev_groups) in
  updateSession model ;;
  csrf ← lift (get_prop model "csrf") ;
  when (truthy csrf)
    (modify (λ s, set_headers (<[xsrfHeaderName := csrf]> (headers s)) s)) ;;
  p ← new_promise (Fulfilled model) ;
  modify (set_lastLoad (Some p)) ;;
  modify (set_lastLoadTime (TNum now)) ;;
  when userChanged
    (when (negb (truthy getAuthority)) (emit AuthClearCache) ;;
     emit (Broadcast USER_CHANGED
             (JObj [("initialLoad"%string, JBool isInitialLoad);
                    ("userid"%string, userid)])) ;;
     (if truthy userid
      then emit (RavenSetUserInfo (JObj [("id"%string, userid)]))
      else emit (RavenSetUserInfo JUndefined))) ;;
  when groupsChanged
    (emit (Broadcast GROUPS_CHANGED
             (JObj [("initialLoad"%string, JBool isInitialLoad)]))) ;;
  ret model.

(** The state [update] leaves when it returns. *)
Definition updated (now : Z) (model : jsval) (s : state) : state :=
  {| headers :=
       if truthy (prop model "csrf")
       then <[xsrfHeaderName := prop model "csrf"]> (headers s)
       else headers s;
     lastLoad := Some (length (promises s));
     lastLoadTime := TNum now;
     session := model;
     promises := promises s ++ [Fulfilled model] |}.

(** The calls [update] makes under [userChanged]. *)
Definition user_changed_effects (isInitialLoad : bool) (userid : jsval)
  : list effect :=
  (if negb (truthy getAuthority) then [AuthClearCache] else [])
  ++ [Broadcast USER_CHANGED
        (JObj [("initialLoad"%string, JBool isInitialLoad);
               ("userid"%string, userid)])]
  ++ [RavenSetUserInfo
        (if truthy userid then JObj [("id"%string, userid)] else JUndefined)].

(** The trace [update] leaves when it returns. *)
Definition update_trace (model prev : jsval) : list effect :=
  let isInitialLoad := negb (truthy (prop prev "csrf")) in
  (if strict_eq (prop model "userid") (prop prev "userid") then []
   else user_changed_effects isInitialLoad (prop model "userid"))
  ++ (if angular_equals (prop model "groups") (prop prev "groups") then []
      else [Broadcast GROUPS_CHANGED
              (JObj [("initialLoad"%string, JBool isInitialLoad)])]).

(** [resource.load]: both [Date.now()] readings of one call are [now]. *)
Definition load (now : Z) : T (option nat) :=
  t ← gets lastLoadTime ;
  when (ts_falsy t || (CACHE_TTL <? elapsed now t))
    (modify (set_lastLoadTime (TNum now)) ;;
     p ← new_promise (Pending LoadChain) ;
     emit (RetryPromiseOperation p) ;;
     modify (set_lastLoad (Some p))) ;;
  gets lastLoad.

(** The state [load] leaves when it starts a fetch. *)
Definition fetching (now : Z) (s : state) : state :=
  {| headers := headers s;
     lastLoad := Some (length (promises s));
     lastLoadTime := TNum now;
     session := session s;
     promises := promises s ++ [Pending LoadChain] |}.

(** The operation [load] hands to [retryUtil.retryPromiseOperation]; the
    retry helper runs it once per attempt.  [update] is chained on the
    profile read and runs when that read resolves. *)
Definition load_operation : T unit :=
  if truthy getAuthority
  then emit (ProfileRead (JObj [("authority"%string, getAuthority)]))
  else (h ← gets headers ; emit (ResourceRequest load_action h)).

(** The callbacks [load] chains on the retried operation. *)
Definition load_settled (now : Z) (p : nat) (r : completion jsval) : T unit :=
  st ← gets (λ s, promises s !! p) ;
  match st with
  | Some (Pending LoadChain) =>
      match r with
      | Normal sess =>
          modify (set_lastLoadTime (TNum now)) ;;
          settle p (Fulfilled sess)
      | Throw err =>
          modify (set_lastLoadTime TNull) ;;
          settle p (Rejected err)
      end
  | _ => ret tt
  end.

Definition dismissSidebarTutorial : T unit :=
  emit (ProfileUpdate (JObj [])
          (JObj [("preferences"%string,
                  JObj [("show_sidebar_tutorial"%string, JBool false)])])).

(** [for (var type in o) if (o.hasOwnProperty(type))]: the own enumerable
    properties of [o] with their values, in enumeration order (an object
    lists its fields in that order; arrays and strings enumerate their
    indices; other values have none). *)
Definition own_props (o : jsval) : list (string * jsval) :=
  match o with
  | JObj fields => fields
  | JArr elems => imap (λ i v, (pretty i, v)) elems
  | JStr str =>
      imap (λ i c, (pretty i, JStr (String c EmptyString)))
           (String.list_ascii_of_string str)
  | _ => []
  end.

(** [msgs[0], ..., msgs[msgs.length - 1]]: a [TypeError] on [undefined] and
    [null]; numbers and booleans have no [length] and give no iteration.
    Objects are taken not to be array-like (no [length] property of their
    own). *)
Definition indexed (msgs : jsval) : completion (list jsval) :=
  match msgs with
  | JUndefined | JNull => Throw TypeError
  | JArr elems => Normal elems
  | JStr str =>
      Normal ((λ c, JStr (String c EmptyString))
                <$> String.list_ascii_of_string str)
  | _ => Normal []
  end.

(** [flash[type](msg)] *)
Definition flash_call (kind : string) (msg : jsval) : T unit :=
  if flash_has kind then emit (FlashMsg kind msg) else lift (Throw TypeError).

Fixpoint fire_msgs (kind : string) (msgs : list jsval) : T unit :=
  match msgs with
  | [] => ret tt
  | msg :: rest => flash_call kind msg ;; fire_msgs kind rest
  end.

Fixpoint fire_flash (entries : list (string * jsval)) : T unit :=
  match entries with
  | [] => ret tt
  | (kind, v) :: rest =>
      msgs ← lift (indexed v) ;
      fire_msgs kind msgs ;;
      fire_flash rest
  end.

(** The [transformResponse] of every action of the resource. *)
Definition process (now : Z) (data : string) (status : Z) : T jsval :=
  if (status <? 200) || (500 <=? status) then ret JNull
  else
    data ← lift (fromJson data) ;
    m ← lift (get_prop data "model") ;
    let model := if truthy m then m else JObj [] in
    errors ← lift (get_prop data "errors") ;
    model ← (if negb (is_undefined errors)
             then lift (set_prop model "errors" errors) else ret model) ;
    reason ← lift (get_prop data "reason") ;
    model ← (if negb (is_undefined reason)
             then lift (set_prop model "reason" reason) else ret model) ;
    fl ← lift (get_prop data "flash") ;
    fire_flash (own_props fl) ;;
    update now model.

(** The notices of a [flash] mapping from kinds to arrays of messages: kind
    by kind, and within a kind message by message. *)
Definition flash_trace (fl : list (string * jsval)) : list effect :=
  flat_map (λ kv, match snd kv with
                  | JArr msgs => FlashMsg (fst kv) <$> msgs
                  | _ => []
                  end) fl.

(** [errors] and [reason] laid over the fields of the model. *)
Definition with_field (k : string) (v : jsval) (fields : list (string * jsval))
  : list (string * jsval) :=
  if is_undefined v then fields else obj_set fields k v.

Definition envelope_model (env base : list (string * jsval)) : jsval :=
  JObj (with_field "reason" (obj_get env "reason")
          (with_field "errors" (obj_get env "errors") base)).

(** [resource.login]: the [$resource] action, sent with [headers]. *)
Definition login : T unit :=
  h ← gets headers ; emit (ResourceRequest login_action h).

(** [logout]: the request is sent and the promise chained on it returned. *)
Definition logout : T nat :=
  h ← gets headers ;
  emit (ResourceRequest logout_action h) ;;
  new_promise (Pending LogoutChain).

(** The callbacks [logout] chains on the request. *)
Definition logout_settled (p : nat) (r : completion jsval) : T unit :=
  st ← gets (λ s, promises s !! p) ;
  match st with
  | Some (Pending LogoutChain) =>
      match r with
      | Normal _ =>
          emit AuthClearCache ;;
          settle p (Fulfilled JUndefined)
      | Throw err =>
          emit (FlashMsg "error" (JStr "Log out failed")) ;;
          settle p (Rejected err)
      end
  | _ => ret tt
  end.

(** ** The service as a transition system

    The public methods, and the callbacks the environment fires: the
    retry helper running [load]'s operation, [$resource] transforming a
    response, and the two promise chains settling.  [Update] also stands
    for [update] chained on a profile read or update. *)
Inductive call : Type :=
| Load
| Update (model : jsval)
| Login
| Logout
| DismissSidebarTutorial
| LoadOperation
| Process (data : string) (status : Z)
| LoadSettled (p : nat) (r : completion jsval)
| LogoutSettled (p : nat) (r : completion jsval).

Inductive result : Type :=
| RUnit
| RValue (v : jsval)
| RPromise (p : option nat).

Definition exec (now : Z) (c : call) : T result :=
  match c with
  | Load => p ← load now ; ret (RPromise p)
  | Update model => v ← update now model ; ret (RValue v)
  | Login => login ;; ret RUnit
  | Logout => p ← logout ; ret (RPromise (Some p))
  | DismissSidebarTutorial => dismissSidebarTutorial ;; ret RUnit
  | LoadOperation => load_operation ;; ret RUnit
  | Process data status => v ← process now data status ; ret (RValue v)
  | LoadSettled p r => load_settled now p r ;; ret RUnit
  | LogoutSettled p r => logout_settled p r ;; ret RUnit
  end.

(** A run: each transition at its clock reading.  An exception ends the
    transition that raised it, not the service. *)
Fixpoint run (evs : list (Z * call)) (s : state) : state * list effect :=
  match evs with
  | [] => (s, [])
  | (now, c) :: rest =>
      match exec now c s with
      | (_, s1, t1) =>
          match run rest s1 with (s2, t2) => (s2, t1 ++ t2) end
      end
  end.

End Service.

(** *** Reading a trace *)

(** The payloads of the [USER_CHANGED] broadcasts of a trace, in order. *)
Definition user_changed_events (t : list effect) : list jsval :=
  omap (λ e, match e with
             | Broadcast USER_CHANGED payload => Some payload
             | _ => None
             end) t.

(** The payloads of the [GROUPS_CHANGED] broadcasts of a trace, in order. *)
Definition groups_changed_events (t : list effect) : list jsval :=
  omap (λ e, match e with
             | Broadcast GROUPS_CHANGED payload => Some payload
             | _ => None
             end) t.

(** The arguments of the [raven.setUserInfo] calls of a trace, in order. *)
Definition raven_calls (t : list effect) : list jsval :=
  omap (λ e, match e with
             | RavenSetUserInfo info => Some info
             | _ => None
             end) t.

(** The broadcasts of a trace, in order. *)
Definition broadcasts (t : list effect) : list (event_name * jsval) :=
  omap (λ e, match e with
             | Broadcast name payload => Some (name, payload)
             | _ => None
             end) t.

(** The fetches a trace starts. *)
Definition fetches (t : list effect) : list nat :=
  omap (λ e, match e with
             | RetryPromiseOperation p => Some p
             | _ => None
             end) t.

(** The header maps of the requests a trace sends through the resource. *)
Definition request_headers (t : list effect) : list (gmap string jsval) :=
  omap (λ e, match e with
             | ResourceRequest _ hdrs => Some hdrs
             | _ => None
             end) t.

Definition only_notices (t : list effect) : Prop :=
  Forall (λ e, ∃ kind msg, e = FlashMsg kind msg) t.

(** The messages a trace hands to the notice collaborator. *)
Definition notices (t : list effect) : list (string * jsval) :=
  omap (λ e, match e with
             | FlashMsg kind msg => Some (kind, msg)
             | _ => None
             end) t.

(** Calls a trace may hold: [auth.clearCache()], a request of the [_load]
    action, a profile read. *)
Definition is_auth_clear (e : effect) : bool :=
  match e with AuthClearCache => true | _ => false end.

Definition is_load_request (e : effect) : bool :=
  match e with
  | ResourceRequest a _ => String.eqb (action_name a) "_load"
  | _ => false
  end.

Definition is_profile_read (e : effect) : bool :=
  match e with ProfileRead _ => true | _ => false end.

(** The transitions that run [update]. *)
Definition runs_update (c : call) : bool :=
  match c with
  | Update _ | Process _ _ => true
  | _ => false
  end.

(** The transition in which [logout]'s callbacks run. *)
Definition settles_logout (c : call) : bool :=
  match c with
  | LogoutSettled _ _ => true
  | _ => false
  end.

(** A timestamp is recorded when [lastLoadTime] is truthy: a clock reading
    other than 0. *)
Definition recorded (t : timestamp) : Prop := ts_falsy t = false.

(** What ties [lastLoad] to [lastLoadTime] in every state the service
    reaches: a cached task is a promise of the table, and while there is
    none no timestamp was ever assigned and no fetch is pending. *)
Definition cache_inv (s : state) : Prop :=
  match lastLoad s with
  | Some p => (p < length (promises s))%nat
  | None =>
      lastLoadTime s = TUndefined
      ∧ ∀ p, promises s !! p ≠ Some (Pending LoadChain)
  end.


(** The service as constructed: no header, nothing loaded. *)
Definition init (session0 : jsval) : state :=
  {| headers := ∅; lastLoad := None; lastLoadTime := TUndefined;
     session := session0; promises := [] |}.

End Session.

(** ** The OAuth token service *)

Module Auth.

Local Open Scope js_scope.

Record CachedToken : Type := { token : jsval; expiresAt : Z }.

(** The body of a successful answer of the token endpoint:
    [{access_token, expires_in}], [expires_in] in seconds. *)
Record tokenInfo : Type := { access_token : jsval; expires_in : Z }.

(** How [$http.post] ends: no answer at all, or an answer with a status. *)
Inductive http_outcome : Type :=
| NetworkFailure (e : exn)
| Response (status : Z) (data : tokenInfo).

(** The promise [exchangeToken] returns, with the [refreshStart] its
    callback in [tokenGetter] closes over. *)
Inductive xstate : Type :=
| XPending (refreshStart : Z)
| XFulfilled (v : jsval)
| XRejected (e : exn).

Inductive promise : Type :=
| Resolved (v : jsval)
| Exchange (id : nat).

Inductive effect : Type :=
| HttpPost (id : nat) (grant_type : string) (assertion : jsval).

Record state : Type := State {
  cachedToken : option CachedToken;
  exchanges : list xstate;
}.

Definition T : Type → Type := M state effect.

Section Service.

Variable settings_services : Settings.services.

Definition grantToken : jsval :=
  match settings_services with
  | Some (s0 :: _) => Settings.grantToken s0
  | _ => JUndefined
  end.

(** [exchangeToken(grantToken)] up to the request being sent. *)
Definition exchangeToken (refreshStart : Z) (grant : jsval) : T nat :=
  λ s, (Normal (length (exchanges s)),
        {| cachedToken := cachedToken s;
           exchanges := exchanges s ++ [XPending refreshStart] |},
        [HttpPost (length (exchanges s))
           "urn:ietf:params:oauth:grant-type:jwt-bearer" grant]).

(** [cachedToken && cachedToken.expiresAt > performance.now()] *)
Definition fresh (now : Z) (ct : option CachedToken) : bool :=
  match ct with
  | Some c => now <? expiresAt c
  | None => false
  end.

(** [cachedToken.token] *)
Definition cached (ct : option CachedToken) : jsval :=
  match ct with
  | Some c => token c
  | None => JUndefined
  end.

(** [tokenGetter]: both [performance.now()] readings of one call are
    [now]. *)
Definition tokenGetter (now : Z) : T promise :=
  ct ← gets cachedToken ;
  if fresh now ct then ret (Resolved (cached ct))
  else if truthy grantToken then
    let refreshStart := now in
    id ← exchangeToken refreshStart grantToken ;
    ret (Exchange id)
  else ret (Resolved JNull).

(** What the promise of [exchangeToken] settles to.  [$http] resolves on a
    2xx status and rejects otherwise; the callback of [exchangeToken] then
    throws unless the status is 200. *)
Definition exchange_result (o : http_outcome) : completion tokenInfo :=
  match o with
  | NetworkFailure e => Throw e
  | Response status data =>
      if (200 <=? status) && (status <? 300) then
        if status =? 200 then Normal data
        else Throw (Error "Failed to retrieve access token")
      else Throw (Reason (JObj [("status"%string, JNum status)]))
  end.

Definition mark (id : nat) (st : xstate) : T unit :=
  modify (λ s, {| cachedToken := cachedToken s;
                  exchanges := <[id := st]> (exchanges s) |}).

(** The callback [tokenGetter] chains on the exchange. *)
Definition exchange_settled (id : nat) (o : http_outcome) : T unit :=
  st ← gets (λ s, exchanges s !! id) ;
  match st with
  | Some (XPending refreshStart) =>
      match exchange_result o with
      | Normal info =>
          modify (λ s,
            {| cachedToken :=
                 Some {| token := access_token info;
                         expiresAt := refreshStart + expires_in info * 1000 |};
               exchanges := exchanges s |}) ;;
          mark id (XFulfilled (access_token info))
      | Throw err => mark id (XRejected err)
      end
  | _ => ret tt
  end.

(** The exchange fails: no answer, or an answer whose status is not 200. *)
Definition exchange_failed (o : http_outcome) : Prop :=
  match o with
  | NetworkFailure _ => True
  | Response status _ => status ≠ 200
  end.

(** The state [tokenGetter] leaves when it starts an exchange. *)
Definition exchanging (now : Z) (s : state) : state :=
  {| cachedToken := cachedToken s;
     exchanges := exchanges s ++ [XPending now] |}.

(** [clearCache] has an empty body. *)
Definition clearCache : T unit := ret tt.

Inductive call : Type :=
| TokenGetter
| ClearCache
| ExchangeSettled (id : nat) (o : http_outcome).

Definition exec (now : Z) (c : call) : T (option promise) :=
  match c with
  | TokenGetter => p ← tokenGetter now ; ret (Some p)
  | ClearCache => clearCache ;; ret None
  | ExchangeSettled id o => exchange_settled id o ;; ret None
  end.

Fixpoint run (evs : list (Z * call)) (s : state) : state * list effect :=
  match evs with
  | [] => (s, [])
  | (now, c) :: rest =>
      match exec now c s with
      | (_, s1, t1) =>
          match run rest s1 with (s2, t2) => (s2, t1 ++ t2) end
      end
  end.

End Service.

Definition init : state := {| cachedToken := None; exchanges := [] |}.

End Auth.

(** ** The actions of the resource, as objects *)

Module Actions.

(** What a field of an action holds: a JSON value, the [headers] object of
    the service (the object itself, shared by reference), or the function
    [process]. *)
Inductive field : Type :=
| Json (v : jsval)
| HeadersRef
| ProcessFn.

Fixpoint get (o : list (string * field)) (k : string) : option field :=
  match o with
  | [] => None
  | (k', v) :: rest => if String.eqb k' k then Some v else get rest k
  end.

(** [o[k] = v] *)
Fixpoint set (o : list (string * field)) (k : string) (v : field)
  : list (string * field) :=
  match o with
  | [] => [(k, v)]
  | (k', v') :: rest =>
      if String.eqb k' k then (k, v) :: rest else (k', v') :: set rest k v
  end.

(** [Object.assign(target, source)]: every own property of [source], in
    order, is assigned to [target]. *)
Definition object_assign (target source : list (string * field))
  : list (string * field) :=
  fold_left (λ t kv, set t (fst kv) (snd kv)) source target.

(** The [actions] literal of [sessionActions]. *)
Definition actions : list (string * list (string * field)) :=
  [("login"%string,
    [("method"%string, Json (JStr "POST"));
     ("params"%string, Json (JObj [("__formid__"%string, JStr "login")]))]);
   ("logout"%string,
    [("method"%string, Json (JStr "POST"));
     ("params"%string, Json (JObj [("__formid__"%string, JStr "logout")]))]);
   ("_load"%string, [("method"%string, Json (JStr "GET"))])].

(** [sessionActions(options)] *)
Definition sessionActions (options : list (string * field))
  : list (string * list (string * field)) :=
  (λ na, (fst na, object_assign (snd na) options)) <$> actions.

(** The options the session service passes. *)
Definition session_options : list (string * field) :=
  [("headers"%string, HeadersRef);
   ("transformResponse"%string, ProcessFn);
   ("withCredentials"%string, Json (JBool true))].

(** The action of a given name. *)
Fixpoint action_named (acts : list (string * list (string * field)))
    (name : string) : option (list (string * field)) :=
  match acts with
  | [] => None
  | (n, a) :: rest => if String.eqb n name then Some a else action_named rest name
  end.

End Actions.

(** ** Sample configurations and inputs *)

Module Examples.

(** No service configured: the session endpoint is the fetch source. *)
Definition no_services : Settings.services := None.

(** A publisher account. *)
Definition publisher : Settings.services :=
  Some [{| Settings.authority := JStr "publisher.org";
           Settings.grantToken := JStr "grant-jwt" |}].

Definition xsrfHeaderName : string := "X-CSRF-Token".

(** The envelope [{model: {userid: u1}, flash: {error: [bad thing]}}]. *)
Definition envelope : jsval :=
  JObj [("model"%string, JObj [("userid"%string, JStr "u1")]);
        ("flash"%string, JObj [("error"%string, JArr [JStr "bad thing"])])].

(** A parser that knows the body of [envelope] and nothing else. *)
Definition fromJson (body : string) : completion jsval :=
  if String.eqb body "{model:{userid:u1},flash:{error:[bad thing]}}"
  then Normal envelope else Throw SyntaxError.

(** The notice collaborator has the four usual kinds. *)
Definition flash_has (kind : string) : bool :=
  String.eqb kind "error" || String.eqb kind "info"
  || String.eqb kind "success" || String.eqb kind "warning".

(** A logged-out session in the store. *)
Definition logged_out : jsval :=
  JObj [("userid"%string, JNull); ("groups"%string, JArr [])].

Definition group (id : string) : jsval :=
  JObj [("id"%string, JStr id); ("name"%string, JStr id)].

(** A model for a logged-in user in two groups. *)
Definition logged_in : jsval :=
  JObj [("userid"%string, JStr "acct:u1@example.org");
        ("csrf"%string, JStr "token-1");
        ("groups"%string, JArr [group "world"; group "team"])].

(** The same user with the two groups in the other order. *)
Definition logged_in_swapped : jsval :=
  JObj [("userid"%string, JStr "acct:u1@example.org");
        ("csrf"%string, JStr "token-1");
        ("groups"%string, JArr [group "team"; group "world"])].

Definition start : Session.state := Session.init logged_out.

(** The service after [update(logged_in)] at time 1000. *)
Definition warm : Session.state :=
  (Session.update no_services xsrfHeaderName 1000 logged_in start).1.2.

(** The service after [update(logged_in)] at 1000 and [logout()] at 2000. *)
Definition logging_out : Session.state :=
  (Session.run no_services xsrfHeaderName fromJson flash_has
     [(1000, Session.Update logged_in); (2000, Session.Logout)] start).1.

(** The service after [load()] at 1000 and, at 400000, the answer of the
    fetch run through [process]; the fetch's own callback has yet to run. *)
Definition answered : Session.state :=
  (Session.run no_services xsrfHeaderName fromJson flash_has
     [(1000, Session.Load);
      (400000,
       Session.Process "{model:{userid:u1},flash:{error:[bad thing]}}" 200)]
     start).1.

(** A successful answer of the token endpoint, good for a minute. *)
Definition minute_token : Auth.tokenInfo :=
  {| Auth.access_token := JStr "access-1"; Auth.expires_in := 60 |}.

(** An envelope with a notice kind the collaborator does not have. *)
Definition envelope_bogus_kind : jsval :=
  JObj [("flash"%string,
         JObj [("info"%string, JArr [JStr "saved"]);
               ("bogus"%string, JArr [JStr "x"]);
               ("error"%string, JArr [JStr "late"])])].

(** An envelope of a failed login: stale [errors] in the model, fresh
    [errors] and a [reason] beside it. *)
Definition envelope_errors : jsval :=
  JObj [("model"%string,
         JObj [("userid"%string, JNull); ("errors"%string, JStr "stale")]);
        ("errors"%string, JObj [("username"%string, JStr "required")]);
        ("reason"%string, JStr "denied")].

(** A parser that knows the bodies of the three sample envelopes. *)
Definition fromJson_samples (body : string) : completion jsval :=
  if String.eqb body "bogus-kind" then Normal envelope_bogus_kind
  else if String.eqb body "login-failed" then Normal envelope_errors
  else fromJson body.

(** The same user, the second group without its [name]. *)
Definition logged_in_lost_name : jsval :=
  JObj [("userid"%string, JStr "acct:u1@example.org");
        ("csrf"%string, JStr "token-1");
        ("groups"%string,
         JArr [group "world"; JObj [("id"%string, JStr "team")]])].

(** The same user, the second group under another [name]. *)
Definition logged_in_renamed : jsval :=
  JObj [("userid"%string, JStr "acct:u1@example.org");
        ("csrf"%string, JStr "token-1");
        ("groups"%string,
         JArr [group "world";
               JObj [("id"%string, JStr "team");
                     ("name"%string, JStr "Team B")]])].

(** An envelope with everything: a model with a stale [errors], fresh
    [errors], a [reason], and notices of two kinds. *)
Definition envelope_full : jsval :=
  JObj [("model"%string,
         JObj [("userid"%string, JStr "u1"); ("errors"%string, JStr "stale")]);
        ("errors"%string, JObj [("password"%string, JStr "too short")]);
        ("reason"%string, JStr "invalid");
        ("flash"%string,
         JObj [("error"%string, JArr [JStr "bad thing"]);
               ("info"%string, JArr [JStr "first"; JStr "second"])])].

(** A parser that knows the body of [envelope_full] as well. *)
Definition fromJson_full (body : string) : completion jsval :=
  if String.eqb body "full" then Normal envelope_full else fromJson body.

End Examples.

(** * Properties of the value layer *)

Section Values.

Lemma jsval_nested_ind (P : jsval → Prop) :
  P JUndefined → P JNull → (∀ b, P (JBool b)) → (∀ n, P (JNum n)) →
  (∀ s, P (JStr s)) →
  (∀ elems, Forall P elems → P (JArr elems)) →
  (∀ fields, Forall (λ kv, P (snd kv)) fields → P (JObj fields)) →
  ∀ v, P v.
Proof.
  intros Hu Hn Hb Hnum Hs Ha Ho.
  fix IH 1.
  intros [| | b | n | s | elems | fields];
    [apply Hu | apply Hn | apply Hb | apply Hnum | apply Hs | |].
  - apply Ha. induction elems as [| x elems IHl]; constructor.
    + apply IH.
    + apply IHl.
  - apply Ho. induction fields as [| [k x] fields IHl]; constructor.
    + apply IH.
    + apply IHl.
Qed.

Lemma strict_eq_primitive (a b : jsval) :
  primitive a → primitive b → (strict_eq a b = false ↔ a ≠ b).
Proof.
  destruct a as [| | x | x | x | |], b as [| | y | y | y | |]; cbn;
    intros Ha Hb; try done.
  - destruct x, y; cbn; split; congruence.
  - rewrite Z.eqb_neq. split; congruence.
  - rewrite String.eqb_neq. split; congruence.
Qed.

Lemma angular_equals_arr (l1 l2 : list jsval) :
  angular_equals (JArr l1) (JArr l2) = true
  ↔ Forall2 (λ x y, angular_equals x y = true) l1 l2.
Proof.
  revert l2. induction l1 as [| x l1 IH]; intros [| y l2]; cbn.
  - split; [constructor | done].
  - split; [done | inversion 1].
  - split; [done | inversion 1].
  - rewrite andb_true_iff. split.
    + intros [Hxy Hrest]. constructor; [done |]. by apply IH.
    + inversion 1; subst. split; [done |]. by apply IH.
Qed.

Lemma angular_equals_obj (f1 f2 : list (string * jsval)) :
  angular_equals (JObj f1) (JObj f2)
  = negb (is_scope f1 || is_scope f2)
    && forallb (λ kv, is_dollar (fst kv)
                      || angular_equals (snd kv) (obj_get f2 (fst kv))) f1
    && forallb (λ kv, has_key f1 (fst kv) || is_dollar (fst kv)
                      || is_undefined (snd kv)) f2.
Proof.
  cbn [angular_equals]. f_equal. f_equal.
  induction f1 as [| [k v] f1 IH]; cbn; [done |]. by rewrite IH.
Qed.

Lemma obj_get_NoDup (fields : list (string * jsval)) (k : string) (v : jsval) :
  NoDup (map fst fields) → (k, v) ∈ fields → obj_get fields k = v.
Proof.
  induction fields as [| [k' v'] fields IH]; cbn; intros Hnd Hin.
  - by apply elem_of_nil in Hin.
  - apply NoDup_cons in Hnd as [Hk' Hnd].
    apply elem_of_cons in Hin as [[= -> ->] | Hin].
    + by rewrite String.eqb_refl.
    + destruct (String.eqb_spec k' k) as [-> |]; [| by apply IH].
      exfalso. apply Hk'. apply list_elem_of_fmap. by exists (k, v).
Qed.

Lemma has_key_elem (fields : list (string * jsval)) (k : string) (v : jsval) :
  (k, v) ∈ fields → has_key fields k = true.
Proof.
  intros Hin. unfold has_key. apply existsb_exists. exists k. split.
  - apply list_elem_of_In, list_elem_of_fmap. by exists (k, v).
  - apply String.eqb_refl.
Qed.

(** [angular.equals] holds between a value and itself. *)
Lemma angular_equals_refl (v : jsval) : wf v → angular_equals v v = true.
Proof.
  induction v as [| | b | n | s | elems IH | fields IH]
    using jsval_nested_ind; intros Hwf; try done.
  - by destruct b.
  - apply Z.eqb_refl.
  - apply String.eqb_refl.
  - apply angular_equals_arr. inversion Hwf as [| | | | | ? Hall |]; subst.
    clear Hwf. induction elems as [| x elems IHl]; constructor.
    + apply Forall_cons in IH as [IHx _]. apply Forall_cons in Hall as [Hx _].
      by apply IHx.
    + apply Forall_cons in IH as [_ IH]. apply Forall_cons in Hall as [_ Hall].
      by apply IHl.
  - rewrite angular_equals_obj.
    inversion Hwf as [| | | | | | ? Hnd Hscope Hall]; subst.
    rewrite Hscope. cbn [orb negb andb].
    apply andb_true_iff. split; apply forallb_forall; intros [k x] Hin;
      apply list_elem_of_In in Hin; cbn.
    + rewrite (obj_get_NoDup fields k x Hnd Hin).
      rewrite Forall_forall in IH. rewrite Forall_forall in Hall.
      pose proof (IH (k, x) Hin (Hall (k, x) Hin)) as Hx. cbn in Hx.
      rewrite Hx. apply orb_true_r.
    + by rewrite (has_key_elem fields k x Hin).
Qed.

Lemma bind_ret {S E A B} (a : A) (f : A → M S E B) (s : S) :
  bind (ret a) f s = f a s.
Proof. unfold bind, ret. by destruct (f a s) as [[c s2] t2]. Qed.

Lemma bind_lift_Normal {S E A B} (a : A) (f : A → M S E B) (s : S) :
  bind (lift (Normal a)) f s = f a s.
Proof. unfold bind, lift. by destruct (f a s) as [[c s2] t2]. Qed.

Lemma bind_lift_Throw {S E A B} (e : exn) (f : A → M S E B) (s : S) :
  bind (lift (Throw e)) f s = (Throw e, s, []).
Proof. done. Qed.

Lemma bind_Normal {S E A B} (m : M S E A) (f : A → M S E B) (s s1 : S)
    (a : A) (t1 : list E) :
  m s = (Normal a, s1, t1) →
  bind m f s = match f a s1 with (c, s2, t2) => (c, s2, t1 ++ t2) end.
Proof. unfold bind. by intros ->. Qed.

Lemma bind_Throw {S E A B} (m : M S E A) (f : A → M S E B) (s s1 : S)
    (e : exn) (t1 : list E) :
  m s = (Throw e, s1, t1) → bind m f s = (Throw e, s1, t1).
Proof. unfold bind. by intros ->. Qed.

Lemma bind_ret_r {S E A B} (m : M S E A) (g : A → B) (s : S) :
  (bind m (λ x, ret (g x)) s).1.2 = (m s).1.2
  ∧ (bind m (λ x, ret (g x)) s).2 = (m s).2.
Proof.
  unfold bind, ret. destruct (m s) as [[[a | e] s1] t1]; cbn; [| done].
  by rewrite app_nil_r.
Qed.

Lemma obj_get_obj_set_eq (fields : list (string * jsval)) (k : string)
    (v : jsval) :
  obj_get (obj_set fields k v) k = v.
Proof.
  induction fields as [| [k' v'] fields IH]; cbn.
  - by rewrite String.eqb_refl.
  - destruct (String.eqb_spec k' k) as [-> | Hne]; cbn.
    + by rewrite String.eqb_refl.
    + by destruct (String.eqb_spec k' k).
Qed.

Lemma obj_get_obj_set_ne (fields : list (string * jsval)) (k k' : string)
    (v : jsval) :
  k ≠ k' → obj_get (obj_set fields k v) k' = obj_get fields k'.
Proof.
  intros Hne. induction fields as [| [k0 v0] fields IH]; cbn.
  - by destruct (String.eqb_spec k k').
  - destruct (String.eqb_spec k0 k) as [-> | Hk0]; cbn.
    + by destruct (String.eqb_spec k k').
    + destruct (String.eqb_spec k0 k'); [done | apply IH].
Qed.

Lemma has_key_iff (fields : list (string * jsval)) (k : string) :
  has_key fields k = true ↔ k ∈ fields.*1.
Proof.
  unfold has_key. rewrite existsb_exists. split.
  - intros (k' & Hin & Heq). apply String.eqb_eq in Heq as ->.
    by apply list_elem_of_In.
  - intros Hin. exists k. split; [by apply list_elem_of_In |].
    apply String.eqb_refl.
Qed.

Lemma obj_get_not_key (fields : list (string * jsval)) (k : string) :
  k ∉ fields.*1 → obj_get fields k = JUndefined.
Proof.
  induction fields as [| [k' v'] fields IH]; cbn; [done |]. intros Hk.
  apply not_elem_of_cons in Hk as [Hne Hk].
  destruct (String.eqb_spec k' k); [congruence | by apply IH].
Qed.

Lemma key_has_value (fields : list (string * jsval)) (k : string) :
  k ∈ fields.*1 → ∃ v, (k, v) ∈ fields.
Proof.
  intros Hin. apply list_elem_of_fmap in Hin as ([k' v] & -> & Hin).
  by exists v.
Qed.

(** Plain objects are no scopes: a scope has [$]-prefixed properties. *)
Lemma plain_not_scope (fields : list (string * jsval)) :
  Forall (λ kv, is_dollar (fst kv) = false ∧ is_undefined (snd kv) = false
                ∧ plain (snd kv)) fields →
  is_scope fields = false.
Proof.
  intros Hall. unfold is_scope.
  rewrite (obj_get_not_key fields "$evalAsync"); [done |].
  intros Hin. apply key_has_value in Hin as [v Hin].
  rewrite Forall_forall in Hall. by destruct (Hall _ Hin) as [Hd _].
Qed.

Lemma angular_equals_undefined (v : jsval) :
  angular_equals v JUndefined = true → v = JUndefined.
Proof. by destruct v. Qed.

(** On plain data [angular.equals] is deep value equality. *)
Lemma angular_equals_deep_eq (a : jsval) :
  ∀ b, plain a → plain b → (angular_equals a b = true ↔ deep_eq a b).
Proof.
  induction a as [| | x | x | x | l1 IH | f1 IH] using jsval_nested_ind;
    intros b Ha Hb.
  - destruct b; cbn; (split; [intros H; try done; constructor
                             | intros H; by inversion H]).
  - destruct b; cbn; (split; [intros H; try done; constructor
                             | intros H; by inversion H]).
  - destruct b as [| | y | | | |]; cbn;
      (split; [intros H; try done | intros H; inversion H; subst]).
    + apply Bool.eqb_prop in H as ->. constructor.
    + apply Bool.eqb_reflx.
  - destruct b as [| | | y | | |]; cbn;
      (split; [intros H; try done | intros H; inversion H; subst]).
    + apply Z.eqb_eq in H as ->. constructor.
    + apply Z.eqb_refl.
  - destruct b as [| | | | y | |]; cbn;
      (split; [intros H; try done | intros H; inversion H; subst]).
    + apply String.eqb_eq in H as ->. constructor.
    + apply String.eqb_refl.
  - destruct b as [| | | | | l2 |];
      try (cbn; split; [done | intros H; by inversion H]).
    rewrite angular_equals_arr.
    inversion Ha as [| | | | | ? Hl1 |]; subst.
    inversion Hb as [| | | | | ? Hl2 |]; subst. clear Ha Hb.
    assert (Forall2 (λ x y, angular_equals x y = true) l1 l2
            ↔ Forall2 deep_eq l1 l2) as Hlists.
    { revert l2 Hl2. induction l1 as [| x l1 IHl]; intros l2 Hl2.
      - split; inversion 1; constructor.
      - apply Forall_cons in IH as [IHx IH].
        apply Forall_cons in Hl1 as [Hx Hl1].
        split; inversion 1 as [| ? y ? l2' Hxy Hrest]; subst;
          apply Forall_cons in Hl2 as [Hy Hl2]; constructor.
        + by apply IHx.
        + by apply (IHl IH Hl1 l2' Hl2).
        + by apply IHx.
        + by apply (IHl IH Hl1 l2' Hl2). }
    rewrite Hlists. split; [by constructor | by inversion 1].
  - destruct b as [| | | | | | f2];
      try (cbn; split; [done | intros H; by inversion H]).
    rewrite angular_equals_obj.
    inversion Ha as [| | | | | | ? Hnd1 Hp1]; subst.
    inversion Hb as [| | | | | | ? Hnd2 Hp2]; subst. clear Ha Hb.
    rewrite (plain_not_scope f1 Hp1), (plain_not_scope f2 Hp2).
    cbn [orb negb andb].
    rewrite andb_true_iff, !forallb_forall.
    rewrite Forall_forall in IH. rewrite Forall_forall in Hp1.
    rewrite Forall_forall in Hp2.
    split.
    + intros [Hprops Hkeys].
      assert (∀ k v1, (k, v1) ∈ f1 →
                angular_equals v1 (obj_get f2 k) = true) as Hval.
      { intros k v1 Hin. destruct (Hp1 _ Hin) as (Hd & _ & _). cbn in Hd.
        specialize (Hprops (k, v1)). cbn in Hprops. rewrite Hd in Hprops.
        apply Hprops. by apply list_elem_of_In. }
      constructor.
      * intros k. split; intros Hin; apply key_has_value in Hin as [v Hin].
        -- destruct (decide (k ∈ f2.*1)) as [| Hnot]; [done |].
           pose proof (Hval k v Hin) as Heq.
           rewrite (obj_get_not_key f2 k Hnot) in Heq.
           apply angular_equals_undefined in Heq as ->.
           by destruct (Hp1 _ Hin) as (_ & Hu & _).
        -- destruct (Hp2 _ Hin) as (Hd & Hu & _). cbn in Hd, Hu.
           specialize (Hkeys (k, v)). cbn in Hkeys.
           rewrite Hd, Hu, !orb_false_r in Hkeys. apply has_key_iff.
           apply Hkeys. by apply list_elem_of_In.
      * intros k v1 v2 Hin1 Hin2.
        pose proof (Hval k v1 Hin1) as Heq.
        rewrite (obj_get_NoDup f2 k v2 Hnd2 Hin2) in Heq.
        destruct (Hp1 _ Hin1) as (_ & _ & Hpl1).
        destruct (Hp2 _ Hin2) as (_ & _ & Hpl2).
        by apply (IH (k, v1) Hin1 v2 Hpl1 Hpl2).
    + inversion 1 as [| | | | | | ? ? Hsame Hvals]; subst. split.
      * intros [k v1] Hin. apply list_elem_of_In in Hin. cbn.
        destruct (Hp1 _ Hin) as (Hd & _ & Hpl1). cbn in Hd. rewrite Hd.
        cbn [orb].
        assert (k ∈ f2.*1) as Hk2.
        { apply Hsame. apply list_elem_of_fmap. by exists (k, v1). }
        apply key_has_value in Hk2 as [v2 Hin2].
        rewrite (obj_get_NoDup f2 k v2 Hnd2 Hin2).
        destruct (Hp2 _ Hin2) as (_ & _ & Hpl2).
        apply (IH (k, v1) Hin v2 Hpl1 Hpl2). by apply (Hvals k).
      * intros [k v2] Hin. apply list_elem_of_In in Hin. cbn.
        assert (has_key f1 k = true) as ->; [| done].
        apply has_key_iff, Hsame. apply list_elem_of_fmap. by exists (k, v2).
Qed.

(** Deep value equality holds between a plain value and itself. *)
Lemma deep_eq_refl (v : jsval) : plain v → deep_eq v v.
Proof.
  induction v as [| | x | x | x | l IH | f IH] using jsval_nested_ind;
    intros Hv; try constructor.
  - inversion Hv as [| | | | | ? Hl |]; subst. clear Hv.
    induction l as [| x l IHl]; constructor.
    + apply Forall_cons in IH as [IHx _]. apply Forall_cons in Hl as [Hx _].
      by apply IHx.
    + apply Forall_cons in IH as [_ IH]. apply Forall_cons in Hl as [_ Hl].
      by apply IHl.
  - done.
  - intros k v1 v2 Hin1 Hin2.
    inversion Hv as [| | | | | | ? Hnd Hp]; subst.
    rewrite <- (obj_get_NoDup f k v1 Hnd Hin1).
    rewrite (obj_get_NoDup f k v2 Hnd Hin2).
    rewrite Forall_forall in IH. rewrite Forall_forall in Hp.
    destruct (Hp _ Hin2) as (_ & _ & Hpl). by apply (IH (k, v2) Hin2).
Qed.

End Values.

(** * Properties of the session service *)

Section SessionProperties.

Variable settings_services : Settings.services.
Variable xsrfHeaderName : string.
Variable fromJson : string → completion jsval.
Variable flash_has : string → bool.

Local Abbreviation getAuthority := (Session.getAuthority settings_services).
Local Abbreviation update := (Session.update settings_services xsrfHeaderName).
Local Abbreviation process :=
  (Session.process settings_services xsrfHeaderName fromJson flash_has).
Local Abbreviation exec :=
  (Session.exec settings_services xsrfHeaderName fromJson flash_has).
Local Abbreviation run :=
  (Session.run settings_services xsrfHeaderName fromJson flash_has).

Lemma get_prop_prop (o : jsval) (k : string) :
  nullish o = false → get_prop o k = Normal (prop o k).
Proof. by destruct o. Qed.

Lemma get_prop_nullish (o : jsval) (k : string) :
  nullish o = true → get_prop o k = Throw TypeError.
Proof. by destruct o. Qed.

Lemma get_prop_Normal (o : jsval) (k : string) (v : jsval) :
  get_prop o k = Normal v → nullish o = false ∧ prop o k = v.
Proof. unfold prop. destruct o; cbn; intros [= <-]; done. Qed.

Lemma update_returns (now : Z) (model : jsval) (s : Session.state) :
  nullish model = false →
  nullish (Session.session s) = false →
  update now model s
  = (Normal model, Session.updated xsrfHeaderName now model s,
     Session.update_trace settings_services model (Session.session s)).
Proof.
  intros Hm Hs.
  destruct s as [h ll lt sess ps]; cbn in Hs.
  unfold Session.update, bind, lift, gets, Session.getState_session,
    Session.updateSession, Session.new_promise, modify, when, emit, ret.
  cbn. rewrite !(get_prop_prop _ _ Hs), !(get_prop_prop _ _ Hm).
  unfold Session.update_trace, Session.updated, Session.user_changed_effects.
  cbn.
  destruct (truthy (prop model "csrf")),
    (strict_eq (prop model "userid") (prop sess "userid")),
    (angular_equals (prop model "groups") (prop sess "groups")),
    (truthy getAuthority), (truthy (prop model "userid")); reflexivity.
Qed.

Lemma update_throws (now : Z) (model : jsval) (s : Session.state) :
  nullish model = true ∨ nullish (Session.session s) = true →
  update now model s = (Throw TypeError, s, []).
Proof.
  intros H.
  unfold Session.update, bind, lift, gets, Session.getState_session.
  cbn. destruct (nullish (Session.session s)) eqn:Hs.
  - by rewrite (get_prop_nullish _ _ Hs).
  - destruct H as [Hm|]; [|done].
    rewrite !(get_prop_prop _ _ Hs), (get_prop_nullish _ _ Hm). done.
Qed.

(** C4.  An [update(model)] whose [model.userid] differs ([!==]) from the
    stored session's broadcasts exactly one [USER_CHANGED] event, whose payload
    carries [initialLoad], true exactly when the stored session had no
    (truthy) [csrf], and the new userid; it calls [auth.clearCache] when no
    authority is configured, and hands [raven.setUserInfo] the new userid
    ([undefined] when the model has none).  With an unchanged userid no
    [USER_CHANGED] event is broadcast.  On strings, [null] and [undefined],
    [!==] is plain inequality. *)
Theorem update_user_changed (now : Z) (model : jsval) (s : Session.state)
    (userid prev_userid : jsval) :
  get_prop model "userid" = Normal userid →
  get_prop (Session.session s) "userid" = Normal prev_userid →
  let t := (update now model s).2 in
  let initialLoad := negb (truthy (prop (Session.session s) "csrf")) in
  (strict_eq userid prev_userid = false →
     Session.user_changed_events t
     = [JObj [("initialLoad"%string, JBool initialLoad);
              ("userid"%string, userid)]]
     ∧ (truthy getAuthority = false → Session.AuthClearCache ∈ t)
     ∧ Session.raven_calls t
       = [if truthy userid then JObj [("id"%string, userid)] else JUndefined])
  ∧ (strict_eq userid prev_userid = true →
       Session.user_changed_events t = [])
  ∧ (primitive userid → primitive prev_userid →
     (strict_eq userid prev_userid = false ↔ userid ≠ prev_userid)).
Proof.
  intros Hu Hp.
  apply get_prop_Normal in Hu as [Hm Hu], Hp as [Hs Hp].
  rewrite (update_returns _ _ _ Hm Hs). cbn.
  unfold Session.update_trace, Session.user_changed_effects.
  rewrite Hu, Hp. split; [| split]; [intros -> | intros -> |].
  3: apply strict_eq_primitive.
  - destruct (angular_equals _ _), (truthy getAuthority), (truthy userid);
      cbn; (split; [done |]); (split; [| done]); intros Hnone;
      first [discriminate Hnone | constructor].
  - by destruct (angular_equals _ _).
Qed.

(** C8.  [update(model)] broadcasts [GROUPS_CHANGED], once, exactly when
    [angular.equals(model.groups, prevSession.groups)] fails.  On plain data
    that is deep value equality, in order: no event for groups that are
    equal group for group, and one event for groups of another number, for
    a group that differs from the stored one in the same position (a
    property lost, gained or holding another value), and for two unequal
    groups in swapped positions. *)
Theorem update_groups_changed (now : Z) (model : jsval) (s : Session.state)
    (groups prev_groups : jsval) :
  get_prop model "groups" = Normal groups →
  get_prop (Session.session s) "groups" = Normal prev_groups →
  let t := (update now model s).2 in
  let initialLoad := negb (truthy (prop (Session.session s) "csrf")) in
  let event := JObj [("initialLoad"%string, JBool initialLoad)] in
  Session.groups_changed_events t
  = (if angular_equals groups prev_groups then [] else [event])
  ∧ (plain groups → plain prev_groups →
     (deep_eq groups prev_groups → Session.groups_changed_events t = [])
     ∧ (¬ deep_eq groups prev_groups →
        Session.groups_changed_events t = [event])
     ∧ (groups = prev_groups → Session.groups_changed_events t = [])
     ∧ (∀ l pl, groups = JArr l → prev_groups = JArr pl →
          (length l ≠ length pl → Session.groups_changed_events t = [event])
          ∧ (∀ i g g', l !! i = Some g → pl !! i = Some g' →
                       ¬ deep_eq g g' →
                       Session.groups_changed_events t = [event])
          ∧ (∀ i f f' k, l !! i = Some (JObj f) → pl !! i = Some (JObj f') →
               ((k ∈ f.*1) ∧ (k ∉ f'.*1)) ∨ ((k ∉ f.*1) ∧ (k ∈ f'.*1))
               ∨ (∃ v v', ((k, v) ∈ f) ∧ ((k, v') ∈ f') ∧ ¬ deep_eq v v') →
               Session.groups_changed_events t = [event]))
     ∧ (∀ x y rest, ¬ deep_eq x y →
          groups = JArr (x :: y :: rest) →
          prev_groups = JArr (y :: x :: rest) →
          Session.groups_changed_events t = [event])).
Proof.
  intros Hg Hp.
  apply get_prop_Normal in Hg as [Hm Hg], Hp as [Hs Hp].
  rewrite (update_returns _ _ _ Hm Hs). cbv zeta. cbn [snd].
  set (event := JObj [("initialLoad"%string,
                       JBool (negb (truthy (prop (Session.session s) "csrf"))))]).
  assert (Session.groups_changed_events
            (Session.update_trace settings_services model (Session.session s))
          = if angular_equals groups prev_groups then [] else [event])
    as Hev.
  { unfold Session.update_trace, Session.user_changed_effects.
    rewrite Hg, Hp.
    destruct (strict_eq _ _), (angular_equals groups prev_groups),
      (truthy getAuthority), (truthy (prop model "userid")); reflexivity. }
  rewrite Hev. split; [done |]. intros Hpg Hpp.
  pose proof (angular_equals_deep_eq groups prev_groups Hpg Hpp) as Hiff.
  assert (deep_eq groups prev_groups →
          (if angular_equals groups prev_groups then [] else [event]) = [])
    as Hsame.
  { intros Hdeep. apply Hiff in Hdeep. by rewrite Hdeep. }
  assert (¬ deep_eq groups prev_groups →
          (if angular_equals groups prev_groups then [] else [event])
          = [event]) as Hdiff.
  { intros Hdeep. destruct (angular_equals groups prev_groups);
      [| done]. exfalso. by apply Hdeep, Hiff. }
  split; [done |]. split; [done |]. split; [| split].
  - intros Heq. apply Hsame. rewrite <- Heq. by apply deep_eq_refl.
  - intros l pl -> ->.
    assert (∀ i g g', l !! i = Some g → pl !! i = Some g' → ¬ deep_eq g g' →
              ¬ deep_eq (JArr l) (JArr pl)) as Hat.
    { intros i g g' Hi Hi' Hne Hdeep.
      inversion Hdeep as [| | | | | ? ? Hall |]; subst.
      apply Hne. by apply (Forall2_lookup_lr _ _ _ i g g' Hall). }
    split; [| split].
    + intros Hlen. apply Hdiff. intros Hdeep.
      inversion Hdeep as [| | | | | ? ? Hall |]; subst.
      by apply Forall2_length in Hall.
    + intros i g g' Hi Hi' Hne. by apply Hdiff, (Hat i g g').
    + intros i f f' k Hi Hi' Hcase. apply Hdiff, (Hat i _ _ Hi Hi').
      intros Hdeep. inversion Hdeep as [| | | | | | ? ? Hkeys Hvals]; subst.
      destruct Hcase as [[Hin Hnot] | [[Hnot Hin] | (v & v' & Hv & Hv' & Hne)]].
      * by apply Hnot, Hkeys.
      * by apply Hnot, Hkeys.
      * by apply Hne, (Hvals k).
  - intros x y rest Hxy -> ->. apply Hdiff. intros Hdeep.
    inversion Hdeep as [| | | | | ? ? Hall |]; subst.
    inversion Hall; subst. done.
Qed.

Lemma recorded_TNum (t0 : Z) : Session.recorded (Session.TNum t0) ↔ t0 ≠ 0.
Proof. unfold Session.recorded. cbn. by rewrite Z.eqb_neq. Qed.

Lemma load_cached (now : Z) (s : Session.state) :
  Session.recorded (Session.lastLoadTime s) →
  Session.elapsed now (Session.lastLoadTime s) ≤ 300000 →
  Session.load now s = (Normal (Session.lastLoad s), s, []).
Proof.
  unfold Session.recorded. intros Hrec Hle.
  unfold Session.load, bind, gets, when. cbn. rewrite Hrec. cbn.
  unfold Session.CACHE_TTL.
  by destruct (Z.ltb_spec (5 * 60 * 1000) (Session.elapsed now (Session.lastLoadTime s)));
    [lia |].
Qed.

Lemma load_fetches (now : Z) (s : Session.state) :
  ¬ Session.recorded (Session.lastLoadTime s)
  ∨ 300000 < Session.elapsed now (Session.lastLoadTime s) →
  Session.load now s
  = (Normal (Some (length (Session.promises s))), Session.fetching now s,
     [Session.RetryPromiseOperation (length (Session.promises s))]).
Proof.
  unfold Session.recorded. intros Hcond.
  assert (Session.ts_falsy (Session.lastLoadTime s)
          || (Session.CACHE_TTL <? Session.elapsed now (Session.lastLoadTime s))
          = true) as Htest.
  { apply orb_true_iff. destruct Hcond as [Hrec | Hgt].
    - left. by destruct (Session.ts_falsy _).
    - right. apply Z.ltb_lt. unfold Session.CACHE_TTL. lia. }
  unfold Session.load, bind, gets, when. cbn. rewrite Htest.
  by destruct s.
Qed.

Lemma load_cases (now : Z) (s : Session.state) :
  (Session.recorded (Session.lastLoadTime s)
   ∧ Session.elapsed now (Session.lastLoadTime s) ≤ 300000)
  ∨ (¬ Session.recorded (Session.lastLoadTime s)
     ∨ 300000 < Session.elapsed now (Session.lastLoadTime s)).
Proof.
  unfold Session.recorded.
  destruct (Session.ts_falsy (Session.lastLoadTime s)); [right; left; done |].
  destruct (Z.le_gt_cases (Session.elapsed now (Session.lastLoadTime s)) 300000);
    [left | right; right]; done.
Qed.

Local Abbreviation fire_msgs := (Session.fire_msgs flash_has).
Local Abbreviation fire_flash := (Session.fire_flash flash_has).

Lemma fire_msgs_ok (kind : string) (msgs : list jsval) (s : Session.state) :
  flash_has kind = true →
  fire_msgs kind msgs s = (Normal tt, s, Session.FlashMsg kind <$> msgs).
Proof.
  intros Hk. induction msgs as [| msg msgs IH]; [done |].
  cbn. unfold bind, Session.flash_call. rewrite Hk. cbn. by rewrite IH.
Qed.

Lemma fire_msgs_frame (kind : string) (msgs : list jsval) (s : Session.state) :
  ∃ c t, fire_msgs kind msgs s = (c, s, t) ∧ Session.only_notices t.
Proof.
  induction msgs as [| msg msgs IH].
  - exists (Normal tt), []. split; [done | constructor].
  - cbn. unfold bind, Session.flash_call.
    destruct (flash_has kind); cbn.
    + destruct IH as (c & t & -> & Ht). exists c, (Session.FlashMsg kind msg :: t).
      split; [done |]. constructor; [by eexists _, _ | done].
    + exists (Throw TypeError), []. split; [done | constructor].
Qed.

Lemma fire_flash_ok (fl : list (string * jsval)) (s : Session.state) :
  Forall (λ kv, flash_has (fst kv) = true ∧ ∃ msgs, snd kv = JArr msgs) fl →
  fire_flash fl s = (Normal tt, s, Session.flash_trace fl).
Proof.
  induction 1 as [| [kind v] fl (Hk & msgs & Hv) _ IH]; [done |].
  cbn in Hk, Hv. subst v. cbn. unfold bind, lift. cbn.
  rewrite (fire_msgs_ok _ _ _ Hk), IH. done.
Qed.

Lemma fire_flash_frame (entries : list (string * jsval)) (s : Session.state) :
  ∃ c t, fire_flash entries s = (c, s, t) ∧ Session.only_notices t.
Proof.
  induction entries as [| [kind v] entries IH].
  - exists (Normal tt), []. split; [done | constructor].
  - cbn. unfold bind, lift.
    destruct (Session.indexed v) as [msgs | e]; cbn.
    + destruct (fire_msgs_frame kind msgs s) as (c1 & t1 & -> & Ht1).
      destruct c1 as [[] | e1].
      * destruct IH as (c & t & -> & Ht). exists c, (t1 ++ t).
        split; [done | by apply Forall_app].
      * by exists (Throw e1), t1.
    + exists (Throw e), []. split; [done | constructor].
Qed.

Lemma process_out_of_range (now : Z) (data : string) (status : Z)
    (s : Session.state) :
  status < 200 ∨ 500 ≤ status →
  process now data status s = (Normal JNull, s, []).
Proof.
  intros H. unfold Session.process.
  destruct (Z.ltb_spec status 200), (Z.leb_spec 500 status); cbn; try done; lia.
Qed.

(** Whatever [process] does, it does it through the flash loop and at most
    one [update]. *)
Lemma process_cases (now : Z) (data : string) (status : Z) (s : Session.state) :
  ((status < 200 ∨ 500 ≤ status)
   ∧ process now data status s = (Normal JNull, s, []))
  ∨ (200 ≤ status < 500
     ∧ ∃ e t, process now data status s = (Throw e, s, t)
              ∧ Session.only_notices t)
  ∨ (200 ≤ status < 500
     ∧ ∃ model t, Session.only_notices t
         ∧ process now data status s
           = match update now model s with
             | (c, s', t') => (c, s', t ++ t')
             end).
Proof.
  destruct (Z.lt_ge_cases status 200) as [Hlo | Hlo].
  { left. split; [by left |]. apply process_out_of_range. by left. }
  destruct (Z.le_gt_cases 500 status) as [Hhi | Hhi].
  { left. split; [by right |]. apply process_out_of_range. by right. }
  right. unfold Session.process.
  replace ((status <? 200) || (500 <=? status)) with false
    by (symmetry; apply orb_false_iff; split;
        [apply Z.ltb_ge | apply Z.leb_gt]; lia).
  assert (∀ e : exn,
    200 ≤ status < 500
    ∧ ∃ e' t, (Throw e : completion jsval, s, @nil Session.effect)
              = (Throw e', s, t) ∧ Session.only_notices t) as Hthrow.
  { intros e. split; [lia |]. exists e, []. split; [done | constructor]. }
  destruct (fromJson data) as [d | e];
    [rewrite bind_lift_Normal | rewrite bind_lift_Throw; left; apply Hthrow].
  destruct (get_prop d "model") as [m | e];
    [rewrite bind_lift_Normal | rewrite bind_lift_Throw; left; apply Hthrow].
  destruct (get_prop d "errors") as [errors | e];
    [rewrite bind_lift_Normal | rewrite bind_lift_Throw; left; apply Hthrow].
  set (model0 := if truthy m then m else JObj []).
  assert (∃ c1 : completion jsval,
    (if negb (is_undefined errors)
     then lift (set_prop model0 "errors" errors) else ret model0)
    = (lift c1 : Session.T jsval)) as [c1 ->].
  { destruct (negb _); by eexists. }
  destruct c1 as [model1 | e];
    [rewrite bind_lift_Normal | rewrite bind_lift_Throw; left; apply Hthrow].
  destruct (get_prop d "reason") as [reason | e];
    [rewrite bind_lift_Normal | rewrite bind_lift_Throw; left; apply Hthrow].
  assert (∃ c2 : completion jsval,
    (if negb (is_undefined reason)
     then lift (set_prop model1 "reason" reason) else ret model1)
    = (lift c2 : Session.T jsval)) as [c2 ->].
  { destruct (negb _); by eexists. }
  destruct c2 as [model2 | e];
    [rewrite bind_lift_Normal | rewrite bind_lift_Throw; left; apply Hthrow].
  destruct (get_prop d "flash") as [fl | e];
    [rewrite bind_lift_Normal | rewrite bind_lift_Throw; left; apply Hthrow].
  destruct (fire_flash_frame (Session.own_props fl) s) as (c & t & Hfl & Ht).
  destruct c as [[] | e].
  - right. split; [lia |]. exists model2, t. split; [done |].
    by rewrite (bind_Normal _ _ _ _ _ _ Hfl).
  - left. split; [lia |]. exists e, t.
    by rewrite (bind_Throw _ _ _ _ _ _ Hfl).
Qed.

(** What [errors] and [reason] laid over a model leave under each name. *)
Lemma with_fields_get (errors reason : jsval) (base : list (string * jsval))
    (k : string) :
  obj_get (Session.with_field "reason" reason
             (Session.with_field "errors" errors base)) k
  = if String.eqb k "reason" && negb (is_undefined reason) then reason
    else if String.eqb k "errors" && negb (is_undefined errors) then errors
    else obj_get base k.
Proof.
  unfold Session.with_field.
  destruct (String.eqb_spec k "reason") as [-> | Hreason]; cbn [andb].
  - destruct (is_undefined reason); cbn [negb].
    + destruct (is_undefined errors); cbn [negb andb String.eqb]; [done |].
      by rewrite obj_get_obj_set_ne.
    + apply obj_get_obj_set_eq.
  - assert (∀ fields,
      obj_get (if is_undefined reason then fields
               else obj_set fields "reason" reason) k
      = obj_get fields k) as ->.
    { intros fields. destruct (is_undefined reason); [done |].
      by rewrite obj_get_obj_set_ne. }
    destruct (String.eqb_spec k "errors") as [-> | Herrors]; cbn [andb].
    + destruct (is_undefined errors); cbn [negb]; [done |].
      apply obj_get_obj_set_eq.
    + destruct (is_undefined errors); [done |].
      by rewrite obj_get_obj_set_ne.
Qed.

(** C7.  [process] returns [null], and does nothing else, for every
    status below 200 or from 500 up.  For a status in [200, 500) and a body
    that parses to an envelope object, it builds a model that holds the
    envelope's [reason] and [errors] where the envelope defines them and,
    under every other name, what the envelope's [model] holds (nothing when
    there is no [model]); it hands every message of every [flash] kind to
    the notice collaborator, kind by kind and message by message, then runs
    [update] on that model and returns what [update] returns, which is the
    model, now the stored session. *)
Theorem process_response (now : Z) (data : string) (status : Z)
    (s : Session.state) :
  (status < 200 ∨ 500 ≤ status →
     process now data status s = (Normal JNull, s, []))
  ∧ (200 ≤ status < 500 →
     ∀ env base fl,
       fromJson data = Normal (JObj env) →
       (obj_get env "model" = JObj base
        ∨ truthy (obj_get env "model") = false ∧ base = []) →
       (obj_get env "flash" = JObj fl
        ∨ obj_get env "flash" = JUndefined ∧ fl = []) →
       Forall (λ kv, flash_has (fst kv) = true ∧ ∃ msgs, snd kv = JArr msgs)
         fl →
       ∃ m,
         (∀ k, obj_get m k
               = if String.eqb k "reason"
                    && negb (is_undefined (obj_get env "reason"))
                 then obj_get env "reason"
                 else if String.eqb k "errors"
                         && negb (is_undefined (obj_get env "errors"))
                 then obj_get env "errors"
                 else obj_get base k)
         ∧ process now data status s
           = match update now (JObj m) s with
             | (c, s', t) => (c, s', Session.flash_trace fl ++ t)
             end
         ∧ Session.notices (Session.flash_trace fl)
           = flat_map (λ kv, match snd kv with
                             | JArr msgs => (λ msg, (fst kv, msg)) <$> msgs
                             | _ => []
                             end) fl
         ∧ (nullish (Session.session s) = false →
            (process now data status s).1.1 = Normal (JObj m)
            ∧ Session.session (process now data status s).1.2 = JObj m)).
Proof.
  split; [apply process_out_of_range |].
  intros [Hlo Hhi] env base fl Hjson Hmodel Hflash Hkinds.
  assert (process now data status s
          = match update now (Session.envelope_model env base) s with
            | (c, s', t) => (c, s', Session.flash_trace fl ++ t)
            end) as Heq.
  { unfold Session.process.
    replace ((status <? 200) || (500 <=? status)) with false
      by (symmetry; apply orb_false_iff; split;
          [apply Z.ltb_ge | apply Z.leb_gt]; lia).
    rewrite Hjson, bind_lift_Normal. cbn [get_prop].
    rewrite !bind_lift_Normal.
    assert ((if truthy (obj_get env "model")
             then obj_get env "model" else JObj []) = JObj base) as ->.
    { destruct Hmodel as [-> | [-> ->]]; done. }
    assert (∀ k v fields,
      (if negb (is_undefined v)
       then lift (set_prop (JObj fields) k v) else ret (JObj fields))
      = (lift (Normal (JObj (Session.with_field k v fields)))
          : Session.T jsval)) as Hlay.
    { intros k v fields. unfold Session.with_field.
      by destruct (is_undefined v). }
    rewrite Hlay, bind_lift_Normal, bind_lift_Normal.
    rewrite Hlay, bind_lift_Normal, bind_lift_Normal.
    assert (Session.own_props (obj_get env "flash") = fl) as ->.
    { destruct Hflash as [-> | [-> ->]]; done. }
    by rewrite (bind_Normal _ _ _ _ _ _ (fire_flash_ok fl s Hkinds)). }
  eexists. split; [apply with_fields_get |]. split; [exact Heq |]. split.
  - clear. unfold Session.flash_trace, Session.notices.
    induction fl as [| [kind v] fl IH]; [done |].
    cbn [flat_map fst snd]. rewrite omap_app, IH. f_equal.
    destruct v as [| | | | | msgs |]; try done.
    induction msgs as [| msg msgs IHm]; [done |]. cbn. by rewrite IHm.
  - intros Hs. rewrite Heq.
    by rewrite (update_returns now (Session.envelope_model env base) s).
Qed.

Lemma update_cases (now : Z) (model : jsval) (s : Session.state) :
  update now model s = (Throw TypeError, s, [])
  ∨ (nullish model = false ∧ nullish (Session.session s) = false
     ∧ update now model s
       = (Normal model, Session.updated xsrfHeaderName now model s,
          Session.update_trace settings_services model (Session.session s))).
Proof.
  destruct (nullish model) eqn:Hm; [left; apply update_throws; by left |].
  destruct (nullish (Session.session s)) eqn:Hs;
    [left; apply update_throws; by right |].
  right. split; [done |]. split; [done |]. by apply update_returns.
Qed.

Lemma load_settled_pending (now : Z) (p : nat) (r : completion jsval)
    (s : Session.state) :
  Session.promises s !! p = Some (Session.Pending Session.LoadChain) →
  Session.load_settled now p r s
  = (Normal tt,
     match r with
     | Normal sess =>
         Session.set_promises
           (<[p := Session.Fulfilled sess]> (Session.promises s))
           (Session.set_lastLoadTime (Session.TNum now) s)
     | Throw err =>
         Session.set_promises
           (<[p := Session.Rejected err]> (Session.promises s))
           (Session.set_lastLoadTime Session.TNull s)
     end, []).
Proof.
  intros Hp. unfold Session.load_settled, bind, gets. cbn. rewrite Hp.
  by destruct r.
Qed.

Lemma load_settled_frame (now : Z) (p : nat) (r : completion jsval)
    (s : Session.state) :
  let s' := (Session.load_settled now p r s).1.2 in
  Session.headers s' = Session.headers s
  ∧ Session.session s' = Session.session s
  ∧ Session.lastLoad s' = Session.lastLoad s
  ∧ (Session.load_settled now p r s).2 = [].
Proof.
  unfold Session.load_settled, bind, gets. cbn.
  destruct (Session.promises s !! p) as [[[] | |] |]; try done.
  by destruct r.
Qed.

Lemma logout_settled_pending (p : nat) (r : completion jsval)
    (s : Session.state) :
  Session.promises s !! p = Some (Session.Pending Session.LogoutChain) →
  Session.logout_settled p r s
  = match r with
    | Normal _ =>
        (Normal tt,
         Session.set_promises
           (<[p := Session.Fulfilled JUndefined]> (Session.promises s)) s,
         [Session.AuthClearCache])
    | Throw err =>
        (Normal tt,
         Session.set_promises
           (<[p := Session.Rejected err]> (Session.promises s)) s,
         [Session.FlashMsg "error" (JStr "Log out failed")])
    end.
Proof.
  intros Hp. unfold Session.logout_settled, bind, gets. cbn. rewrite Hp.
  by destruct r.
Qed.

Lemma logout_settled_frame (p : nat) (r : completion jsval)
    (s : Session.state) :
  let s' := (Session.logout_settled p r s).1.2 in
  Session.headers s' = Session.headers s
  ∧ Session.session s' = Session.session s
  ∧ Session.lastLoad s' = Session.lastLoad s
  ∧ Session.lastLoadTime s' = Session.lastLoadTime s
  ∧ Session.request_headers (Session.logout_settled p r s).2 = []
  ∧ Session.fetches (Session.logout_settled p r s).2 = [].
Proof.
  unfold Session.logout_settled, bind, gets. cbn.
  destruct (Session.promises s !! p) as [[[] | |] |]; try done.
  by destruct r.
Qed.

Lemma exec_cache_inv (now : Z) (c : Session.call) (s : Session.state) :
  Session.cache_inv s → Session.cache_inv (exec now c s).1.2.
Proof.
  intros Hinv.
  destruct c as [| model | | | | | data status | p r | p r]; cbn [Session.exec].
  - destruct (bind_ret_r (Session.load now) Session.RPromise s) as [-> _].
    destruct (load_cases now s) as [[Hrec Hle] | Hcond].
    + by rewrite (load_cached now s Hrec Hle).
    + rewrite (load_fetches now s Hcond). unfold Session.cache_inv. cbn.
      rewrite length_app. cbn. lia.
  - destruct (bind_ret_r (update now model) Session.RValue s) as [-> _].
    destruct (update_cases now model s) as [-> | (_ & _ & ->)]; [done |].
    unfold Session.cache_inv. cbn. rewrite length_app. cbn. lia.
  - done.
  - unfold Session.cache_inv in *. cbn.
    destruct (Session.lastLoad s) as [q |].
    + rewrite length_app. cbn. lia.
    + destruct Hinv as [Ht Hnone]. split; [done |]. intros q Hq.
      apply lookup_app_Some in Hq as [Hq | [_ Hq]]; [by apply (Hnone q) |].
      by apply list_lookup_singleton_Some in Hq as [_ [=]].
  - done.
  - unfold Session.load_operation. by destruct (truthy getAuthority).
  - destruct (bind_ret_r (process now data status) Session.RValue s)
      as [-> _].
    destruct (process_cases now data status s)
      as [[_ ->] | [(_ & e & t & -> & _) | (_ & model & t & _ & ->)]];
      [done | done |].
    destruct (update_cases now model s) as [-> | (_ & _ & ->)]; [done |].
    unfold Session.cache_inv. cbn. rewrite length_app. cbn. lia.
  - destruct (bind_ret_r (Session.load_settled now p r) (λ _, Session.RUnit) s)
      as [-> _].
    destruct (Session.promises s !! p) as [st |] eqn:Hp.
    2: { unfold Session.load_settled, bind, gets. cbn. by rewrite Hp. }
    destruct st as [[] | v | e].
    2-4: unfold Session.load_settled, bind, gets; cbn; by rewrite Hp.
    rewrite (load_settled_pending now p r s Hp).
    unfold Session.cache_inv in *.
    destruct (Session.lastLoad s) as [q |] eqn:Hq.
    + destruct r; cbn; rewrite Hq, length_insert; done.
    + destruct Hinv as [_ Hnone]. by destruct (Hnone p).
  - destruct (bind_ret_r (Session.logout_settled p r) (λ _, Session.RUnit) s)
      as [-> _].
    destruct (Session.promises s !! p) as [st |] eqn:Hp.
    2: { unfold Session.logout_settled, bind, gets. cbn. by rewrite Hp. }
    destruct st as [[] | v | e].
    1,3,4: unfold Session.logout_settled, bind, gets; cbn; by rewrite Hp.
    rewrite (logout_settled_pending p r s Hp).
    assert (∀ st', st' ≠ Session.Pending Session.LoadChain →
              Session.cache_inv
                (Session.set_promises (<[p := st']> (Session.promises s)) s))
      as Hset.
    { intros st' Hst'. unfold Session.cache_inv in *. cbn.
      destruct (Session.lastLoad s) as [q |]; [by rewrite length_insert |].
      destruct Hinv as [Ht Hnone]. split; [done |]. intros q Hq.
      destruct (decide (p = q)) as [<- | Hne].
      - rewrite list_lookup_insert_eq in Hq by (by apply lookup_lt_Some in Hp).
        congruence.
      - rewrite list_lookup_insert_ne in Hq by done. by apply (Hnone q). }
    destruct r; cbn; by apply Hset.
Qed.

(** The invariant holds along every run from the service as constructed. *)
Lemma run_cache_inv (evs : list (Z * Session.call)) (s : Session.state) :
  Session.cache_inv s → Session.cache_inv (run evs s).1.
Proof.
  revert s. induction evs as [| [now c] evs IH]; intros s Hinv; [done |].
  cbn [Session.run].
  pose proof (exec_cache_inv now c s Hinv) as Hstep.
  destruct (exec now c s) as [[c1 s1] t1]. cbn in Hstep.
  specialize (IH s1 Hstep). by destruct (run evs s1) as [s2 t2].
Qed.

Lemma init_cache_inv (session0 : jsval) :
  Session.cache_inv (Session.init session0).
Proof. split; [done |]. by intros p. Qed.

(** C1.  A [load()] made while a timestamp is recorded and at most 300000 ms
    have elapsed since it returns the cached task and starts no fetch; a
    [load()] that starts a fetch finds no timestamp recorded or more than
    300000 ms elapsed.  Every [update] that returns, also one run by
    [process] on a response, sets the timestamp to the current time, and a
    [load()] within 300000 ms of it returns the task [update] cached.  In
    every state the service reaches, a recorded timestamp comes with a
    cached task.  (A timestamp is recorded when [lastLoadTime] is truthy,
    that is, a reading other than 0.) *)
Theorem load_cache_ttl (now : Z) (s : Session.state) :
  (Session.recorded (Session.lastLoadTime s) →
   Session.elapsed now (Session.lastLoadTime s) ≤ 300000 →
   Session.load now s = (Normal (Session.lastLoad s), s, []))
  ∧ (Session.fetches (Session.load now s).2 ≠ [] →
     ¬ Session.recorded (Session.lastLoadTime s)
     ∨ 300000 < Session.elapsed now (Session.lastLoadTime s))
  ∧ (∀ model v,
       (update now model s).1.1 = Normal v →
       let s' := (update now model s).1.2 in
       Session.lastLoadTime s' = Session.TNum now
       ∧ ∀ now', now ≠ 0 → now' - now ≤ 300000 →
           ∃ p, Session.load now' s' = (Normal (Some p), s', [])
                ∧ Session.promises s' !! p = Some (Session.Fulfilled model))
  ∧ (∀ data status v,
       200 ≤ status < 500 →
       (process now data status s).1.1 = Normal v →
       Session.lastLoadTime (process now data status s).1.2
       = Session.TNum now)
  ∧ (∀ evs session0,
       s = (run evs (Session.init session0)).1 →
       Session.recorded (Session.lastLoadTime s) →
       ∃ p st, Session.lastLoad s = Some p
               ∧ Session.promises s !! p = Some st).
Proof.
  split; [apply load_cached |]. split; [| split; [| split]].
  4: { intros evs session0 -> Hrec.
       pose proof (run_cache_inv evs _ (init_cache_inv session0)) as Hinv.
       unfold Session.cache_inv in Hinv.
       destruct (Session.lastLoad _) as [p |].
       - apply lookup_lt_is_Some in Hinv as [st Hst]. by exists p, st.
       - destruct Hinv as [Ht _]. by rewrite Ht in Hrec. }
  - intros Hf. destruct (load_cases now s) as [[Hrec Hle] | Hcond]; [| done].
    by rewrite (load_cached now s Hrec Hle) in Hf.
  - intros model v Hv.
    destruct (update_cases now model s) as [Heq | (Hm & Hs & Heq)];
      rewrite Heq in Hv |- *; [done |].
    cbn. split; [done |]. intros now' Hnow Hle.
    exists (length (Session.promises s)). split.
    + apply (load_cached now' (Session.updated xsrfHeaderName now model s)).
      * by apply recorded_TNum.
      * done.
    + cbn. by rewrite lookup_app_r, Nat.sub_diag.
  - intros data status v Hst Hv.
    destruct (process_cases now data status s)
      as [[Hout _] | [(_ & e & t & Heq & _) | (_ & model & t & _ & Heq)]].
    + lia.
    + by rewrite Heq in Hv.
    + rewrite Heq in Hv |- *.
      destruct (update_cases now model s) as [Hu | (Hm & Hs & Hu)];
        rewrite Hu in Hv |- *; done.
Qed.

(** C5.  When the fetch behind [load()] fails, the callback sets
    [lastLoadTime] to [null], the task every caller of that fetch holds is
    rejected with the error, the session in the store and the cached task
    stay as they were, no collaborator is called, and the next [load()],
    whenever it comes, starts a fresh fetch. *)
Theorem load_failure_clears_timestamp (now : Z) (p : nat) (err : exn)
    (s : Session.state) :
  Session.promises s !! p = Some (Session.Pending Session.LoadChain) →
  let s' := (Session.load_settled now p (Throw err) s).1.2 in
  Session.lastLoadTime s' = Session.TNull
  ∧ Session.promises s' !! p = Some (Session.Rejected err)
  ∧ Session.session s' = Session.session s
  ∧ Session.lastLoad s' = Session.lastLoad s
  ∧ (Session.load_settled now p (Throw err) s).2 = []
  ∧ ∀ now',
      Session.load now' s'
      = (Normal (Some (length (Session.promises s'))),
         Session.fetching now' s',
         [Session.RetryPromiseOperation (length (Session.promises s'))]).
Proof.
  intros Hp. rewrite (load_settled_pending now p (Throw err) s Hp). cbn.
  split; [done |]. split.
  { apply list_lookup_insert_eq. by apply lookup_lt_Some in Hp. }
  split; [done |]. split; [done |]. split; [done |].
  done.
Qed.


(** C6, as the code has it.  When the request of [logout()] fails, the
    callback shows the notice ['Log out failed'] and rejects the promise the
    caller holds with the error; [lastLoad] and [lastLoadTime] stay as they
    were.  When it succeeds, the callback calls [auth.clearCache]. *)
Theorem logout_failure_notice (p : nat) (s : Session.state) :
  Session.promises s !! p = Some (Session.Pending Session.LogoutChain) →
  (∀ err,
     let r := Session.logout_settled p (Throw err) s in
     r.2 = [Session.FlashMsg "error" (JStr "Log out failed")]
     ∧ Session.promises r.1.2 !! p = Some (Session.Rejected err)
     ∧ Session.lastLoadTime r.1.2 = Session.lastLoadTime s
     ∧ Session.lastLoad r.1.2 = Session.lastLoad s)
  ∧ (∀ v,
       let r := Session.logout_settled p (Normal v) s in
       r.2 = [Session.AuthClearCache]
       ∧ Session.promises r.1.2 !! p = Some (Session.Fulfilled JUndefined)).
Proof.
  intros Hp. pose proof (lookup_lt_Some _ _ _ Hp) as Hlt. split.
  - intros err. rewrite (logout_settled_pending p (Throw err) s Hp). cbn.
    split; [done |]. split; [| done]. by apply list_lookup_insert_eq.
  - intros v. rewrite (logout_settled_pending p (Normal v) s Hp). cbn.
    split; [done |]. by apply list_lookup_insert_eq.
Qed.

Lemma only_notices_requests (t : list Session.effect) :
  Session.only_notices t → Session.request_headers t = [].
Proof.
  induction 1 as [| e t (kind & msg & ->) _ IH]; [done |]. by cbn.
Qed.

Lemma update_trace_requests (model prev : jsval) :
  Session.request_headers (Session.update_trace settings_services model prev)
  = [].
Proof.
  unfold Session.update_trace, Session.user_changed_effects.
  by destruct (strict_eq _ _), (angular_equals _ _), (truthy getAuthority),
    (truthy (prop model "userid")).
Qed.

(** What one [update] does to the header map. *)
Lemma update_headers (now : Z) (model : jsval) (s : Session.state) :
  let r := update now model s in
  (Session.headers r.1.2 = Session.headers s
   ∨ truthy (prop model "csrf") = true
     ∧ Session.headers r.1.2
       = <[xsrfHeaderName := prop model "csrf"]> (Session.headers s))
  ∧ Session.request_headers r.2 = [].
Proof.
  destruct (update_cases now model s) as [Heq | (Hm & Hs & Heq)];
    rewrite Heq; cbn; [by split; [left |] |].
  split; [| apply update_trace_requests].
  destruct (truthy (prop model "csrf")); [by right | by left].
Qed.

(** Every transition leaves the header map alone or sets its CSRF entry to
    a truthy token, and sends its requests with the map it found. *)
Lemma exec_headers (now : Z) (c : Session.call) (s : Session.state) :
  let r := exec now c s in
  (Session.headers r.1.2 = Session.headers s
   ∨ ∃ v, truthy v = true
          ∧ Session.headers r.1.2 = <[xsrfHeaderName := v]> (Session.headers s))
  ∧ Forall (λ h, h = Session.headers s) (Session.request_headers r.2).
Proof.
  destruct c as [| model | | | | | data status | p r | p r]; cbn [Session.exec].
  - destruct (bind_ret_r (Session.load now) Session.RPromise s) as [-> ->].
    destruct (load_cases now s) as [[Hrec Hle] | Hcond].
    + rewrite (load_cached now s Hrec Hle). by split; [left |].
    + rewrite (load_fetches now s Hcond). by split; [left |].
  - destruct (bind_ret_r (update now model) Session.RValue s) as [-> ->].
    destruct (update_headers now model s) as [[Hh | [Ht Hh]] ->].
    + by split; [left |].
    + split; [right; by eexists | done].
  - by split; [left | repeat constructor].
  - by split; [left | repeat constructor].
  - by split; [left |].
  - unfold Session.load_operation.
    destruct (truthy getAuthority); by split; [left | repeat constructor].
  - destruct (bind_ret_r (process now data status) Session.RValue s)
      as [-> ->].
    destruct (process_cases now data status s)
      as [[_ Heq] | [(_ & e & t & Heq & Ht) | (_ & model & t & Ht & Heq)]];
      rewrite Heq.
    + by split; [left |].
    + cbn. split; [by left |]. by rewrite only_notices_requests.
    + destruct (update_headers now model s) as [Hh Hreq].
      destruct (update now model s) as [[c' s'] t']. cbn in *.
      unfold Session.request_headers in *.
      rewrite omap_app. fold (Session.request_headers t).
      rewrite (only_notices_requests t Ht), Hreq. split; [| done].
      destruct Hh as [Hh | [Ht' Hh]]; [by left | right; by eexists].
  - destruct (bind_ret_r (Session.load_settled now p r) (λ _, Session.RUnit) s)
      as [-> ->].
    destruct (load_settled_frame now p r s) as (-> & _ & _ & ->).
    by split; [left |].
  - destruct (bind_ret_r (Session.logout_settled p r) (λ _, Session.RUnit) s)
      as [-> ->].
    destruct (logout_settled_frame p r s) as (-> & _ & _ & _ & -> & _).
    by split; [left |].
Qed.

Lemma run_headers (evs : list (Z * Session.call)) (s : Session.state) :
  is_Some (Session.headers s !! xsrfHeaderName) →
  is_Some (Session.headers (run evs s).1 !! xsrfHeaderName)
  ∧ Forall (λ h : gmap string jsval, is_Some (h !! xsrfHeaderName))
      (Session.request_headers (run evs s).2).
Proof.
  revert s. induction evs as [| [now c] evs IH]; intros s Hs; [by split |].
  cbn [Session.run].
  destruct (exec_headers now c s) as [Hh Hreq].
  destruct (exec now c s) as [[c1 s1] t1]. cbn in Hh, Hreq.
  assert (is_Some (Session.headers s1 !! xsrfHeaderName)) as Hs1.
  { destruct Hh as [-> | (v & _ & ->)]; [done |].
    rewrite lookup_insert_eq. by eexists. }
  destruct (IH s1 Hs1) as [IH1 IH2].
  destruct (run evs s1) as [s2 t2]. cbn in *. split; [done |].
  unfold Session.request_headers in *. rewrite omap_app.
  apply Forall_app. split; [| done].
  eapply Forall_impl; [exact Hreq |]. by intros h ->.
Qed.

(** C10.  [update(model)] touches no header but the CSRF one; it leaves the
    whole map as it was when [model.csrf] is absent (falsy), and sets the
    CSRF entry to [model.csrf] when it is present.  Once the map carries a
    CSRF entry, it carries one after any run of the service, and every
    request the run sends through the resource carries one. *)
Theorem update_csrf_header_frame (now : Z) (model : jsval)
    (s : Session.state) :
  let s' := (update now model s).1.2 in
  (∀ k, k ≠ xsrfHeaderName →
        Session.headers s' !! k = Session.headers s !! k)
  ∧ (truthy (prop model "csrf") = false →
     Session.headers s' = Session.headers s)
  ∧ ((update now model s).1.1 = Normal model →
     truthy (prop model "csrf") = true →
     Session.headers s' !! xsrfHeaderName = Some (prop model "csrf"))
  ∧ (∀ evs,
       is_Some (Session.headers s !! xsrfHeaderName) →
       is_Some (Session.headers (run evs s).1 !! xsrfHeaderName)
       ∧ Forall (λ h : gmap string jsval, is_Some (h !! xsrfHeaderName))
           (Session.request_headers (run evs s).2)).
Proof.
  cbv zeta. split; [| split; [| split]].
  - intros k Hk. destruct (update_headers now model s) as [[-> | [_ ->]] _];
      [done |]. by rewrite lookup_insert_ne.
  - intros Hc. destruct (update_headers now model s) as [[-> | [Ht _]] _];
      [done | congruence].
  - intros Hret Hc.
    destruct (update_cases now model s) as [Heq | (Hm & Hs & Heq)];
      rewrite Heq in Hret |- *; [done |].
    cbn. rewrite Hc. apply lookup_insert_eq.
  - intros evs. apply run_headers.
Qed.

(** ** Further properties of the session service *)

(** X1.  Both events of one [update]: [USER_CHANGED] comes before
    [GROUPS_CHANGED], and both carry the [initialLoad] computed from the
    session stored before the call. *)
Theorem update_event_order (now : Z) (model : jsval) (s : Session.state) :
  nullish model = false →
  nullish (Session.session s) = false →
  let prev := Session.session s in
  let initialLoad := JBool (negb (truthy (prop prev "csrf"))) in
  Session.broadcasts (update now model s).2
  = (if strict_eq (prop model "userid") (prop prev "userid") then []
     else [(Session.USER_CHANGED,
            JObj [("initialLoad"%string, initialLoad);
                  ("userid"%string, prop model "userid")])])
    ++ (if angular_equals (prop model "groups") (prop prev "groups") then []
        else [(Session.GROUPS_CHANGED,
               JObj [("initialLoad"%string, initialLoad)])]).
Proof.
  intros Hm Hs. rewrite (update_returns _ _ _ Hm Hs). cbv zeta. cbn [snd].
  unfold Session.update_trace, Session.user_changed_effects.
  by destruct (strict_eq _ _), (angular_equals _ _), (truthy getAuthority),
    (truthy (prop model "userid")).
Qed.

(** X2.  [update] on a [null] or [undefined] model, or over a [null] or
    [undefined] stored session, throws a [TypeError] before it has done
    anything: store, headers and cache are as before and no collaborator is
    called. *)
Theorem update_rejects_nullish (now : Z) (model : jsval) (s : Session.state) :
  nullish model = true ∨ nullish (Session.session s) = true →
  update now model s = (Throw TypeError, s, [])
  ∧ exec now (Session.Update model) s = (Throw TypeError, s, []).
Proof.
  intros H. pose proof (update_throws now model s H) as Heq.
  split; [done |]. cbn [Session.exec].
  by rewrite (bind_Throw _ _ _ _ _ _ Heq).
Qed.

(** X3.  The store holds the model [update] was given, and a second [update]
    with that model (its userid a primitive, its groups well formed)
    broadcasts nothing and calls neither [auth] nor [raven]. *)
Theorem update_same_model_silent (now now' : Z) (model : jsval)
    (s : Session.state) :
  nullish model = false →
  nullish (Session.session s) = false →
  primitive (prop model "userid") →
  wf (prop model "groups") →
  let s1 := (update now model s).1.2 in
  Session.getState_session s1 = (Normal model, s1, [])
  ∧ (update now' model s1).1.1 = Normal model
  ∧ (update now' model s1).2 = [].
Proof.
  intros Hm Hs Hprim Hwf. rewrite (update_returns _ _ _ Hm Hs).
  cbv zeta. cbn [fst snd]. split; [done |].
  rewrite (update_returns now' model _ Hm) by done.
  split; [done |]. cbn [snd Session.session Session.updated].
  unfold Session.update_trace.
  rewrite (angular_equals_refl _ Hwf).
  destruct (strict_eq (prop model "userid") (prop model "userid")) eqn:Heq;
    [done |].
  by apply (strict_eq_primitive _ _ Hprim Hprim) in Heq.
Qed.

(** X4.  In any state where the fetch [p] is pending, the success callback
    of [load] settles [p] with the session it was given, moves the timestamp
    to the time the fetch completed and leaves store, headers and cached task
    alone: a [load()] up to 300000 ms after the completion starts no fetch
    and is served the task that was cached when the callback ran, however
    long the fetch took. *)
Theorem load_success_restarts_window (done_at now : Z) (sess : jsval)
    (p : nat) (s : Session.state) :
  Session.promises s !! p = Some (Session.Pending Session.LoadChain) →
  done_at ≠ 0 →
  now - done_at ≤ 300000 →
  let s2 := (Session.load_settled done_at p (Normal sess) s).1.2 in
  Session.lastLoadTime s2 = Session.TNum done_at
  ∧ Session.promises s2 = <[p := Session.Fulfilled sess]> (Session.promises s)
  ∧ Session.session s2 = Session.session s
  ∧ Session.headers s2 = Session.headers s
  ∧ Session.lastLoad s2 = Session.lastLoad s
  ∧ Session.load now s2 = (Normal (Session.lastLoad s), s2, []).
Proof.
  intros Hp Hdone Hle.
  rewrite (load_settled_pending done_at _ (Normal sess) _ Hp).
  cbv zeta. cbn [fst snd].
  do 5 (split; [by destruct s |]).
  rewrite (load_cached now); [by destruct s | by apply recorded_TNum | done].
Qed.

(** X5.  A clock reading of 0 is no timestamp: after an [update] at reading 0
    the cache is not warm, and the next [load()], whenever it comes, starts
    a fetch. *)
Theorem epoch_reading_not_recorded (model : jsval) (s : Session.state)
    (now : Z) :
  nullish model = false →
  nullish (Session.session s) = false →
  let s1 := (update 0 model s).1.2 in
  Session.lastLoadTime s1 = Session.TNum 0
  ∧ ¬ Session.recorded (Session.lastLoadTime s1)
  ∧ Session.fetches (Session.load now s1).2 = [length (Session.promises s1)].
Proof.
  intros Hm Hs. rewrite (update_returns _ _ _ Hm Hs). cbv zeta. cbn [fst snd].
  assert (¬ Session.recorded
            (Session.lastLoadTime (Session.updated xsrfHeaderName 0 model s)))
    as Hrec by (intros Hrec; by apply recorded_TNum in Hrec).
  split; [done |]. split; [done |].
  by rewrite load_fetches by (by left).
Qed.

Lemma process_lift (now : Z) (data : string) (status : Z) (s : Session.state)
    (env base : list (string * jsval)) :
  200 ≤ status < 500 →
  fromJson data = Normal (JObj env) →
  (obj_get env "model" = JObj base
   ∨ truthy (obj_get env "model") = false ∧ base = []) →
  process now data status s
  = bind (fire_flash (Session.own_props (obj_get env "flash")))
      (λ _, update now (Session.envelope_model env base)) s.
Proof.
  intros [Hlo Hhi] Hjson Hmodel. unfold Session.process.
  replace ((status <? 200) || (500 <=? status)) with false
    by (symmetry; apply orb_false_iff; split;
        [apply Z.ltb_ge | apply Z.leb_gt]; lia).
  rewrite Hjson, bind_lift_Normal. cbn [get_prop].
  rewrite !bind_lift_Normal.
  assert ((if truthy (obj_get env "model")
           then obj_get env "model" else JObj []) = JObj base) as ->.
  { destruct Hmodel as [-> | [-> ->]]; done. }
  assert (∀ k v fields,
    (if negb (is_undefined v)
     then lift (set_prop (JObj fields) k v) else ret (JObj fields))
    = (lift (Normal (JObj (Session.with_field k v fields)))
        : Session.T jsval)) as Hlay.
  { intros k v fields. unfold Session.with_field.
    by destruct (is_undefined v). }
  rewrite Hlay, bind_lift_Normal, bind_lift_Normal.
  by rewrite Hlay, bind_lift_Normal, bind_lift_Normal.
Qed.

Lemma fire_flash_unknown_kind (pre post : list (string * jsval))
    (kind : string) (msg : jsval) (msgs : list jsval) (s : Session.state) :
  Forall (λ kv, flash_has (fst kv) = true ∧ ∃ l, snd kv = JArr l) pre →
  flash_has kind = false →
  fire_flash (pre ++ (kind, JArr (msg :: msgs)) :: post) s
  = (Throw TypeError, s, Session.flash_trace pre).
Proof.
  intros Hpre Hkind.
  induction Hpre as [| [k v] pre (Hk & l & Hv) _ IH].
  - cbn. unfold bind, lift, Session.flash_call. cbn. by rewrite Hkind.
  - cbn in Hk, Hv. subst v. cbn [app Session.fire_flash Session.indexed].
    rewrite bind_lift_Normal.
    rewrite (bind_Normal _ _ _ _ _ _ (fire_msgs_ok k l s Hk)), IH. done.
Qed.

(** X6.  A body that does not parse, a body that parses to [null], and an
    envelope whose [model] is a string, number or [true] while [errors] or
    [reason] is defined: for a status in [200, 500) [process] throws, calls
    neither [update] nor the notice collaborator, and leaves the state as it
    was. *)
Theorem process_malformed_body (now : Z) (data : string) (status : Z)
    (s : Session.state) :
  200 ≤ status < 500 →
  (∀ e, fromJson data = Throw e →
        process now data status s = (Throw e, s, []))
  ∧ (∀ d, fromJson data = Normal d → nullish d = true →
          process now data status s = (Throw TypeError, s, []))
  ∧ (∀ env, fromJson data = Normal (JObj env) →
            truthy (obj_get env "model") = true →
            primitive (obj_get env "model") →
            is_undefined (obj_get env "errors") = false
            ∨ is_undefined (obj_get env "reason") = false →
            process now data status s = (Throw TypeError, s, [])).
Proof.
  intros [Hlo Hhi].
  assert (∀ m : Session.T jsval,
            (if (status <? 200) || (500 <=? status) then ret JNull else m) = m)
    as Hrange.
  { intros m.
    replace ((status <? 200) || (500 <=? status)) with false; [done |].
    symmetry; apply orb_false_iff; split; [apply Z.ltb_ge | apply Z.leb_gt];
      lia. }
  split; [| split].
  - intros e He. unfold Session.process. by rewrite Hrange, He.
  - intros d Hd Hnull. unfold Session.process.
    rewrite Hrange, Hd, bind_lift_Normal.
    by rewrite (get_prop_nullish d "model" Hnull).
  - intros env Henv Htruthy Hprim Hdef. unfold Session.process.
    rewrite Hrange, Henv, bind_lift_Normal. cbn [get_prop].
    rewrite !bind_lift_Normal, Htruthy.
    assert (∀ k v, set_prop (obj_get env "model") k v = Throw TypeError)
      as Hset.
    { intros k v. destruct (obj_get env "model"); done. }
    destruct (is_undefined (obj_get env "errors")); cbn [negb].
    + rewrite bind_ret, bind_lift_Normal.
      destruct Hdef as [Hdef | Hdef]; [done |]. rewrite Hdef. cbn [negb].
      by rewrite Hset.
    + by rewrite Hset.
Qed.

(** X7.  A [flash] kind the notice collaborator has no method for makes
    [process] throw a [TypeError] at the first message of that kind: the
    messages of the kinds before it have been shown, [update] is not called,
    and store, headers and cache are as before. *)
Theorem process_unknown_flash_kind (now : Z) (data : string) (status : Z)
    (s : Session.state) (env base pre post : list (string * jsval))
    (kind : string) (msg : jsval) (msgs : list jsval) :
  200 ≤ status < 500 →
  fromJson data = Normal (JObj env) →
  (obj_get env "model" = JObj base
   ∨ truthy (obj_get env "model") = false ∧ base = []) →
  obj_get env "flash" = JObj (pre ++ (kind, JArr (msg :: msgs)) :: post) →
  Forall (λ kv, flash_has (fst kv) = true ∧ ∃ l, snd kv = JArr l) pre →
  flash_has kind = false →
  process now data status s = (Throw TypeError, s, Session.flash_trace pre).
Proof.
  intros Hst Hjson Hmodel Hflash Hpre Hkind.
  rewrite (process_lift now data status s env base Hst Hjson Hmodel), Hflash.
  cbn [Session.own_props].
  by rewrite (bind_Throw _ _ _ _ _ _
                (fire_flash_unknown_kind pre post kind msg msgs s Hpre Hkind)).
Qed.

(** X8.  The model [process] returns and stores: [reason] and [errors] are the
    envelope's when the envelope defines them, also over fields of those
    names in [model], and every other property is the one of the envelope's
    [model]. *)
Theorem process_model_fields (now : Z) (data : string) (status : Z)
    (s : Session.state) (env base fl : list (string * jsval)) :
  200 ≤ status < 500 →
  fromJson data = Normal (JObj env) →
  (obj_get env "model" = JObj base
   ∨ truthy (obj_get env "model") = false ∧ base = []) →
  (obj_get env "flash" = JObj fl ∨ obj_get env "flash" = JUndefined ∧ fl = []) →
  Forall (λ kv, flash_has (fst kv) = true ∧ ∃ msgs, snd kv = JArr msgs) fl →
  nullish (Session.session s) = false →
  ∃ m, (process now data status s).1.1 = Normal (JObj m)
       ∧ Session.session (process now data status s).1.2 = JObj m
       ∧ ∀ k,
           obj_get m k
           = if String.eqb k "reason"
                && negb (is_undefined (obj_get env "reason"))
             then obj_get env "reason"
             else if String.eqb k "errors"
                     && negb (is_undefined (obj_get env "errors"))
             then obj_get env "errors"
             else obj_get base k.
Proof.
  intros Hst Hjson Hmodel Hflash Hkinds Hs.
  rewrite (process_lift now data status s env base Hst Hjson Hmodel).
  assert (Session.own_props (obj_get env "flash") = fl) as ->.
  { destruct Hflash as [-> | [-> ->]]; done. }
  rewrite (bind_Normal _ _ _ _ _ _ (fire_flash_ok fl s Hkinds)).
  rewrite (update_returns now (Session.envelope_model env base) s) by done.
  cbn [fst snd Session.session Session.updated].
  eexists. split; [reflexivity |]. split; [reflexivity |].
  intros k. unfold Session.with_field.
  destruct (String.eqb_spec k "reason") as [-> | Hreason]; cbn [andb].
  - destruct (is_undefined (obj_get env "reason")); cbn [negb].
    + destruct (is_undefined (obj_get env "errors")); cbn [negb]; [done |].
      by rewrite obj_get_obj_set_ne.
    + apply obj_get_obj_set_eq.
  - assert (∀ fields,
      obj_get (if is_undefined (obj_get env "reason") then fields
               else obj_set fields "reason" (obj_get env "reason")) k
      = obj_get fields k) as ->.
    { intros fields. destruct (is_undefined _); [done |].
      by rewrite obj_get_obj_set_ne. }
    destruct (String.eqb_spec k "errors") as [-> | Herrors]; cbn [andb].
    + destruct (is_undefined (obj_get env "errors")); cbn [negb]; [done |].
      apply obj_get_obj_set_eq.
    + destruct (is_undefined (obj_get env "errors")); [done |].
      by rewrite obj_get_obj_set_ne.
Qed.

Lemma only_notices_Forall (P : Session.effect → Prop) (t : list Session.effect) :
  (∀ kind msg, P (Session.FlashMsg kind msg)) →
  Session.only_notices t → Forall P t.
Proof.
  intros HP Ht. eapply Forall_impl; [exact Ht |].
  intros e (kind & msg & ->). apply HP.
Qed.

Lemma update_trace_Forall (P : Session.effect → Prop) (model prev : jsval) :
  (∀ name payload, P (Session.Broadcast name payload)) →
  (∀ info, P (Session.RavenSetUserInfo info)) →
  (truthy getAuthority = false → P Session.AuthClearCache) →
  Forall P (Session.update_trace settings_services model prev).
Proof.
  intros Hb Hr Ha. unfold Session.update_trace, Session.user_changed_effects.
  destruct (strict_eq _ _), (angular_equals _ _), (truthy getAuthority),
    (truthy (prop model "userid")); cbn; repeat constructor; auto.
Qed.

(** The trace of one transition, effect by effect. *)
Lemma exec_trace_Forall (P : Session.effect → Prop) (now : Z)
    (c : Session.call) (s : Session.state) :
  (∀ kind msg, P (Session.FlashMsg kind msg)) →
  (∀ p, P (Session.RetryPromiseOperation p)) →
  (∀ params body, P (Session.ProfileUpdate params body)) →
  (∀ h, P (Session.ResourceRequest Session.login_action h)) →
  (∀ h, P (Session.ResourceRequest Session.logout_action h)) →
  (Session.runs_update c = true →
   (∀ name payload, P (Session.Broadcast name payload))
   ∧ (∀ info, P (Session.RavenSetUserInfo info))) →
  ((Session.runs_update c = true ∧ truthy getAuthority = false)
   ∨ Session.settles_logout c = true → P Session.AuthClearCache) →
  (truthy getAuthority = true → ∀ params, P (Session.ProfileRead params)) →
  (truthy getAuthority = false →
   ∀ h, P (Session.ResourceRequest Session.load_action h)) →
  Forall P (exec now c s).2.
Proof.
  intros Hflash Hretry Hpu Hlogin Hlogout Hupd Hclear Hread Hreq.
  destruct c as [| model | | | | | data status | p r | p r]; cbn [Session.exec].
  - destruct (bind_ret_r (Session.load now) Session.RPromise s) as [_ ->].
    destruct (load_cases now s) as [[Hrec Hle] | Hcond].
    + rewrite (load_cached now s Hrec Hle). constructor.
    + rewrite (load_fetches now s Hcond). repeat constructor. apply Hretry.
  - destruct (bind_ret_r (update now model) Session.RValue s) as [_ ->].
    destruct (Hupd eq_refl) as [Hb Hr].
    destruct (update_cases now model s) as [-> | (_ & _ & ->)];
      [constructor |].
    apply update_trace_Forall; [done | done |]. intros Ha. apply Hclear.
    by left.
  - repeat constructor. apply Hlogin.
  - repeat constructor. apply Hlogout.
  - repeat constructor. apply Hpu.
  - unfold Session.load_operation.
    destruct (truthy getAuthority) eqn:Ha; repeat constructor.
    + by apply Hread.
    + by apply Hreq.
  - destruct (bind_ret_r (process now data status) Session.RValue s)
      as [_ ->].
    destruct (Hupd eq_refl) as [Hb Hr].
    destruct (process_cases now data status s)
      as [[_ ->] | [(_ & e & t & -> & Ht) | (_ & model & t & Ht & ->)]].
    + constructor.
    + by apply only_notices_Forall.
    + destruct (update_cases now model s) as [-> | (_ & _ & ->)];
        cbn [snd]; apply Forall_app; (split; [by apply only_notices_Forall |]);
        [constructor |].
      apply update_trace_Forall; [done | done |]. intros Ha. apply Hclear.
      by left.
  - destruct (bind_ret_r (Session.load_settled now p r) (λ _, Session.RUnit) s)
      as [_ ->].
    destruct (load_settled_frame now p r s) as (_ & _ & _ & ->). constructor.
  - destruct (bind_ret_r (Session.logout_settled p r) (λ _, Session.RUnit) s)
      as [_ ->].
    unfold Session.logout_settled, bind, gets. cbn.
    destruct (Session.promises s !! p) as [[[] | |] |]; try constructor.
    destruct r; cbn; repeat constructor.
    + apply Hclear. by right.
    + apply Hflash.
Qed.

Lemma run_trace_Forall (P : Session.effect → Prop)
    (evs : list (Z * Session.call)) (s : Session.state) :
  (∀ now c s', (now, c) ∈ evs → Forall P (exec now c s').2) →
  Forall P (run evs s).2.
Proof.
  revert s. induction evs as [| [now c] evs IH]; intros s Hstep;
    [constructor |].
  cbn [Session.run].
  pose proof (Hstep now c s (list_elem_of_here _ _)) as H1.
  destruct (exec now c s) as [[c1 s1] t1].
  assert (Forall P (run evs s1).2) as H2.
  { apply IH. intros now' c' s' Hin. apply Hstep. by right. }
  destruct (run evs s1) as [s2 t2]. cbn in *. by apply Forall_app.
Qed.

(** X9.  The stored session changes in [update] only: a run in which [update]
    never runs, neither called nor through [process], leaves the store and
    the header map as they were, broadcasts nothing and never calls
    [raven]. *)
Theorem only_update_writes_store (evs : list (Z * Session.call))
    (s : Session.state) :
  Forall (λ e, Session.runs_update (snd e) = false) evs →
  Session.session (run evs s).1 = Session.session s
  ∧ Session.headers (run evs s).1 = Session.headers s
  ∧ Session.broadcasts (run evs s).2 = []
  ∧ Session.raven_calls (run evs s).2 = [].
Proof.
  intros Hevs.
  assert (Forall (λ e, ∀ name payload info,
                    e ≠ Session.Broadcast name payload
                    ∧ e ≠ Session.RavenSetUserInfo info) (run evs s).2)
    as Htrace.
  { apply run_trace_Forall. intros now c s' Hin.
    rewrite Forall_forall in Hevs. specialize (Hevs _ Hin). cbn in Hevs.
    apply exec_trace_Forall; try done. by rewrite Hevs. }
  assert (Session.session (run evs s).1 = Session.session s
          ∧ Session.headers (run evs s).1 = Session.headers s) as [Hs Hh].
  { clear Htrace. revert s.
    induction Hevs as [| [now c] evs Hc _ IH]; intros s; [done |].
    cbn [Session.run]. cbn in Hc.
    assert (Session.session (exec now c s).1.2 = Session.session s
            ∧ Session.headers (exec now c s).1.2 = Session.headers s)
      as [Hs1 Hh1].
    { destruct c as [| model | | | | | data status | p r | p r]; try done;
        cbn [Session.exec].
      - destruct (bind_ret_r (Session.load now) Session.RPromise s) as [-> _].
        destruct (load_cases now s) as [[Hrec Hle] | Hcond].
        + by rewrite (load_cached now s Hrec Hle).
        + by rewrite (load_fetches now s Hcond).
      - unfold Session.load_operation. by destruct (truthy getAuthority).
      - destruct (bind_ret_r (Session.load_settled now p r)
                    (λ _, Session.RUnit) s) as [-> _].
        by destruct (load_settled_frame now p r s) as (-> & -> & _).
      - destruct (bind_ret_r (Session.logout_settled p r)
                    (λ _, Session.RUnit) s) as [-> _].
        by destruct (logout_settled_frame p r s) as (-> & -> & _). }
    destruct (exec now c s) as [[c1 s1] t1]. cbn in Hs1, Hh1.
    specialize (IH s1). destruct (run evs s1) as [s2 t2]. cbn in *.
    destruct IH as [-> ->]. done. }
  split; [done |]. split; [done |].
  induction Htrace as [| e t He _ IH]; [done |].
  destruct IH as [IHb IHr].
  destruct e; cbn; try done.
  - by destruct (He name payload JNull) as [? _].
  - by destruct (He Session.USER_CHANGED JNull info) as [_ ?].
Qed.

(** X10.  The fetch source and the [auth.clearCache] of [update] go by the
    authority.  With one configured, no run sends a [_load] request, and
    [auth.clearCache] is called by the success callback of [logout] only;
    without one, no run reads the profile. *)
Theorem authority_decides_fetch_source (evs : list (Z * Session.call))
    (s : Session.state) :
  (truthy getAuthority = true →
   (∀ h, Session.ResourceRequest Session.load_action h ∉ (run evs s).2)
   ∧ (Forall (λ e, Session.settles_logout (snd e) = false) evs →
      Session.AuthClearCache ∉ (run evs s).2))
  ∧ (truthy getAuthority = false →
     ∀ params, Session.ProfileRead params ∉ (run evs s).2).
Proof.
  split; [intros Ha; split |].
  - intros h Hin.
    assert (Forall (λ e, Session.is_load_request e = false) (run evs s).2)
      as Htrace.
    { apply run_trace_Forall. intros now c s' _.
      apply exec_trace_Forall; try done. congruence. }
    rewrite Forall_forall in Htrace. by specialize (Htrace _ Hin).
  - intros Hevs Hin.
    assert (Forall (λ e, Session.is_auth_clear e = false) (run evs s).2)
      as Htrace.
    { apply run_trace_Forall. intros now c s' Hc.
      rewrite Forall_forall in Hevs. specialize (Hevs _ Hc). cbn in Hevs.
      apply exec_trace_Forall; try done.
      intros [[_ Hfalse] | Hlogout]; congruence. }
    rewrite Forall_forall in Htrace. by specialize (Htrace _ Hin).
  - intros Ha params Hin.
    assert (Forall (λ e, Session.is_profile_read e = false) (run evs s).2)
      as Htrace.
    { apply run_trace_Forall. intros now c s' _.
      apply exec_trace_Forall; try done. congruence. }
    rewrite Forall_forall in Htrace. by specialize (Htrace _ Hin).
Qed.

(** X11.  An expired cache is fetched anew: a [load()] more than 300000 ms after
    the recorded timestamp starts exactly one fetch, records the current
    time, and returns a new pending task, not the one it had cached. *)
Theorem load_after_ttl_fetches (now t0 : Z) (s : Session.state) :
  Session.cache_inv s →
  Session.lastLoadTime s = Session.TNum t0 →
  300000 < now - t0 →
  let r := Session.load now s in
  ∃ p, r.1.1 = Normal (Some p)
       ∧ Session.fetches r.2 = [p]
       ∧ Session.promises r.1.2 !! p = Some (Session.Pending Session.LoadChain)
       ∧ Session.lastLoadTime r.1.2 = Session.TNum now
       ∧ Session.lastLoad s ≠ Some p
       ∧ ∀ q st, Session.promises s !! q = Some st →
                 Session.promises r.1.2 !! q = Some st.
Proof.
  intros Hinv Ht Hgt. cbv zeta.
  rewrite (load_fetches now s) by (right; rewrite Ht; cbn; lia).
  exists (length (Session.promises s)). cbn [fst snd].
  split; [done |]. split; [done |]. split.
  { cbn. by rewrite lookup_app_r, Nat.sub_diag. }
  split; [done |]. split.
  - unfold Session.cache_inv in Hinv. intros Heq. rewrite Heq in Hinv. lia.
  - intros q st Hq. cbn. by apply lookup_app_l_Some.
Qed.

End SessionProperties.

(** * Properties of the token service *)

Section AuthProperties.

Variable settings_services : Settings.services.

Local Abbreviation grantToken := (Auth.grantToken settings_services).
Local Abbreviation tokenGetter := (Auth.tokenGetter settings_services).
Local Abbreviation exec := (Auth.exec settings_services).
Local Abbreviation run := (Auth.run settings_services).

Local Abbreviation jwt_bearer :=
  ("urn:ietf:params:oauth:grant-type:jwt-bearer"%string).

Lemma tokenGetter_cached (now : Z) (s : Auth.state) (c : Auth.CachedToken) :
  Auth.cachedToken s = Some c → now < Auth.expiresAt c →
  tokenGetter now s = (Normal (Auth.Resolved (Auth.token c)), s, []).
Proof.
  intros Hc Hlt. apply Z.ltb_lt in Hlt.
  unfold Auth.tokenGetter, bind, gets. rewrite Hc. cbn. by rewrite Hlt.
Qed.

Lemma tokenGetter_exchanges (now : Z) (s : Auth.state) :
  Auth.fresh now (Auth.cachedToken s) = false →
  truthy grantToken = true →
  tokenGetter now s
  = (Normal (Auth.Exchange (length (Auth.exchanges s))),
     Auth.exchanging now s,
     [Auth.HttpPost (length (Auth.exchanges s)) jwt_bearer grantToken]).
Proof.
  intros Hf Hg. unfold Auth.tokenGetter, bind, gets. by rewrite Hf, Hg.
Qed.

Lemma tokenGetter_Exchange_inv (now : Z) (s : Auth.state) (id : nat) :
  (tokenGetter now s).1.1 = Normal (Auth.Exchange id) →
  Auth.fresh now (Auth.cachedToken s) = false
  ∧ truthy grantToken = true
  ∧ id = length (Auth.exchanges s).
Proof.
  unfold Auth.tokenGetter, bind, gets.
  destruct (Auth.fresh now (Auth.cachedToken s)); [done |].
  destruct (truthy grantToken); cbn; [| done]. by intros [= <-].
Qed.

Lemma exchange_settled_pending (id : nat) (o : Auth.http_outcome)
    (s : Auth.state) (refreshStart : Z) :
  Auth.exchanges s !! id = Some (Auth.XPending refreshStart) →
  Auth.exchange_settled id o s
  = (Normal tt,
     match Auth.exchange_result o with
     | Normal info =>
         {| Auth.cachedToken :=
              Some {| Auth.token := Auth.access_token info;
                      Auth.expiresAt :=
                        refreshStart + Auth.expires_in info * 1000 |};
            Auth.exchanges :=
              <[id := Auth.XFulfilled (Auth.access_token info)]>
                (Auth.exchanges s) |}
     | Throw err =>
         {| Auth.cachedToken := Auth.cachedToken s;
            Auth.exchanges := <[id := Auth.XRejected err]> (Auth.exchanges s) |}
     end, []).
Proof.
  intros Hp. unfold Auth.exchange_settled, bind, gets. cbn. rewrite Hp.
  by destruct (Auth.exchange_result o).
Qed.

Lemma exchange_failed_Throw (o : Auth.http_outcome) :
  Auth.exchange_failed o → ∃ err, Auth.exchange_result o = Throw err.
Proof.
  destruct o as [e | status data]; cbn; [by eexists |]. intros Hst.
  destruct ((200 <=? status) && (status <? 300)); [| by eexists].
  destruct (Z.eqb_spec status 200); [done | by eexists].
Qed.

(** A pending exchange stays pending, with its [refreshStart], until its
    own callback runs. *)
Lemma exec_pending (now : Z) (c : Auth.call) (s : Auth.state) (id : nat)
    (refreshStart : Z) :
  Auth.exchanges s !! id = Some (Auth.XPending refreshStart) →
  (∀ o, c ≠ Auth.ExchangeSettled id o) →
  Auth.exchanges (exec now c s).1.2 !! id = Some (Auth.XPending refreshStart).
Proof.
  intros Hp Hc. destruct c as [| | id' o]; cbn [Auth.exec].
  - destruct (bind_ret_r (tokenGetter now) Some s) as [-> _].
    unfold Auth.tokenGetter, bind, gets. cbn.
    assert ((Auth.exchanges s ++ [Auth.XPending now]) !! id
            = Some (Auth.XPending refreshStart)) as Happ.
    { rewrite lookup_app_l; [done |]. by apply lookup_lt_Some in Hp. }
    destruct (Auth.fresh now (Auth.cachedToken s)); [done |].
    by destruct (truthy grantToken).
  - done.
  - destruct (bind_ret_r (Auth.exchange_settled id' o) (λ _, @None Auth.promise) s)
      as [-> _].
    assert (id' ≠ id) as Hne by (intros ->; by apply (Hc o)).
    unfold Auth.exchange_settled, bind, gets. cbn.
    destruct (Auth.exchanges s !! id') as [[T' | |] |]; try done.
    destruct (Auth.exchange_result o); cbn; by rewrite list_lookup_insert_ne.
Qed.

Lemma run_pending (evs : list (Z * Auth.call)) (s : Auth.state) (id : nat)
    (refreshStart : Z) :
  Auth.exchanges s !! id = Some (Auth.XPending refreshStart) →
  (∀ now o, (now, Auth.ExchangeSettled id o) ∉ evs) →
  Auth.exchanges (run evs s).1 !! id = Some (Auth.XPending refreshStart).
Proof.
  revert s. induction evs as [| [now c] evs IH]; intros s Hp Hevs; [done |].
  cbn [Auth.run].
  pose proof (exec_pending now c s id refreshStart Hp) as Hstep.
  destruct (exec now c s) as [[c1 s1] t1]. cbn in Hstep.
  specialize (IH s1). destruct (run evs s1) as [s2 t2]. cbn in *.
  apply IH.
  - apply Hstep. intros o ->. apply (Hevs now o). by left.
  - intros now' o Hin. apply (Hevs now' o). by right.
Qed.

(** C3.  An exchange started by [tokenGetter] at time [T] that succeeds
    with lifetime [expires_in], whatever happened and however long it took
    in between, caches the token with [expiresAt = T + expires_in * 1000].
    From then on every [tokenGetter] call at a time below [expiresAt]
    resolves to the cached token with no request, and a call at
    [expiresAt] or later starts a new exchange. *)
Theorem token_expires_from_refresh_start (T : Z) (s : Auth.state) (id : nat)
    (evs : list (Z * Auth.call)) (info : Auth.tokenInfo) :
  (tokenGetter T s).1.1 = Normal (Auth.Exchange id) →
  (∀ now o, (now, Auth.ExchangeSettled id o) ∉ evs) →
  let s1 := (tokenGetter T s).1.2 in
  let s2 := (run evs s1).1 in
  let s3 := (Auth.exchange_settled id (Auth.Response 200 info) s2).1.2 in
  let expiry := T + Auth.expires_in info * 1000 in
  Auth.cachedToken s3
  = Some {| Auth.token := Auth.access_token info; Auth.expiresAt := expiry |}
  ∧ (∀ t, t < expiry →
       tokenGetter t s3
       = (Normal (Auth.Resolved (Auth.access_token info)), s3, []))
  ∧ (∀ ts, Forall (λ t, t < expiry) ts →
       run ((λ t, (t, Auth.TokenGetter)) <$> ts) s3 = (s3, []))
  ∧ (∀ t, expiry ≤ t →
       tokenGetter t s3
       = (Normal (Auth.Exchange (length (Auth.exchanges s3))),
          Auth.exchanging t s3,
          [Auth.HttpPost (length (Auth.exchanges s3)) jwt_bearer grantToken])).
Proof.
  intros Hstart Hevs.
  destruct (tokenGetter_Exchange_inv T s id Hstart) as (Hf & Hg & ->).
  rewrite (tokenGetter_exchanges T s Hf Hg). cbv zeta. cbn [fst snd].
  assert (Auth.exchanges (Auth.exchanging T s) !! length (Auth.exchanges s)
          = Some (Auth.XPending T)) as Hp.
  { cbn. by rewrite lookup_app_r, Nat.sub_diag. }
  pose proof (run_pending evs _ _ _ Hp Hevs) as Hp2.
  rewrite (exchange_settled_pending _ (Auth.Response 200 info) _ T Hp2).
  change (Auth.exchange_result (Auth.Response 200 info)) with (Normal info).
  cbn [fst snd].
  set (s3 := Auth.State _ _).
  assert (∀ t, t < T + Auth.expires_in info * 1000 →
            tokenGetter t s3
            = (Normal (Auth.Resolved (Auth.access_token info)), s3, []))
    as Hcached.
  { intros t Ht. by apply (tokenGetter_cached t s3 _ eq_refl). }
  split; [done |]. split; [done |]. split.
  - induction 1 as [| t ts Ht _ IH]; [done |].
    rewrite fmap_cons. cbn [Auth.run Auth.exec].
    rewrite (bind_Normal _ _ _ _ _ _ (Hcached t Ht)). unfold ret.
    by rewrite IH.
  - intros t Ht. apply tokenGetter_exchanges; [| done].
    cbn. apply Z.ltb_ge. lia.
Qed.

(** C9.  When the exchange started by [tokenGetter] fails, by a network
    failure or a status other than 200, the callback sends no further
    request, the promise the caller holds is rejected with the error, and
    [cachedToken] is what it was; the next [tokenGetter] call, the clock
    being monotonic, starts a fresh exchange. *)
Theorem failed_exchange_leaves_cache (T : Z) (s : Auth.state) (id : nat)
    (o : Auth.http_outcome) :
  (tokenGetter T s).1.1 = Normal (Auth.Exchange id) →
  Auth.exchange_failed o →
  let s1 := (tokenGetter T s).1.2 in
  let r := Auth.exchange_settled id o s1 in
  (∃ err, Auth.exchange_result o = Throw err
          ∧ Auth.exchanges r.1.2 !! id = Some (Auth.XRejected err))
  ∧ r.2 = []
  ∧ Auth.cachedToken r.1.2 = Auth.cachedToken s
  ∧ (∀ t, T ≤ t →
       tokenGetter t r.1.2
       = (Normal (Auth.Exchange (length (Auth.exchanges r.1.2))),
          Auth.exchanging t r.1.2,
          [Auth.HttpPost (length (Auth.exchanges r.1.2)) jwt_bearer
             grantToken])
       ∧ length (Auth.exchanges r.1.2) ≠ id).
Proof.
  intros Hstart Hfail.
  destruct (tokenGetter_Exchange_inv T s id Hstart) as (Hf & Hg & ->).
  rewrite (tokenGetter_exchanges T s Hf Hg). cbv zeta. cbn [fst snd].
  assert (Auth.exchanges (Auth.exchanging T s) !! length (Auth.exchanges s)
          = Some (Auth.XPending T)) as Hp.
  { cbn. by rewrite lookup_app_r, Nat.sub_diag. }
  rewrite (exchange_settled_pending _ o _ T Hp).
  destruct (exchange_failed_Throw o Hfail) as [err Herr]. rewrite Herr.
  cbn [fst snd Auth.cachedToken Auth.exchanges Auth.exchanging].
  split; [| split; [done | split; [done |]]].
  - exists err. split; [done |]. apply list_lookup_insert_eq.
    rewrite length_app. cbn. lia.
  - intros t Ht. split.
    + apply tokenGetter_exchanges; [| done]. cbn.
      unfold Auth.fresh in *. destruct (Auth.cachedToken s) as [c |]; [| done].
      apply Z.ltb_ge. apply Z.ltb_ge in Hf. lia.
    + rewrite length_insert, length_app. cbn. lia.
Qed.

(** ** Further properties of the token service *)

(** X12.  Without a grant token the service never leaves its first state: no run
    sends a request or caches a token, and [tokenGetter] resolves to
    [null]. *)
Theorem no_grant_token_no_request (evs : list (Z * Auth.call)) (now : Z) :
  truthy grantToken = false →
  run evs Auth.init = (Auth.init, [])
  ∧ tokenGetter now Auth.init = (Normal (Auth.Resolved JNull), Auth.init, []).
Proof.
  intros Hg.
  assert (∀ t, tokenGetter t Auth.init
               = (Normal (Auth.Resolved JNull), Auth.init, [])) as Hnull.
  { intros t. unfold Auth.tokenGetter, bind, gets. cbn. by rewrite Hg. }
  split; [| apply Hnull].
  induction evs as [| [t c] evs IH]; [done |].
  cbn [Auth.run].
  assert (∃ r, exec t c Auth.init = (r, Auth.init, [])) as [r ->].
  { destruct c as [| | id o]; cbn [Auth.exec].
    - rewrite (bind_Normal _ _ _ _ _ _ (Hnull t)). by eexists.
    - by eexists.
    - by eexists. }
  by rewrite IH.
Qed.

(** X13.  Every request of every run is the same exchange: the [jwt-bearer] grant
    type with the configured grant token as assertion; each request has a
    promise of its own, numbered in the order the requests are sent. *)
Theorem exchange_requests_uniform (evs : list (Z * Auth.call))
    (s : Auth.state) :
  let r := run evs s in
  r.2 = (λ id, Auth.HttpPost id jwt_bearer grantToken)
        <$> seq (length (Auth.exchanges s)) (length r.2)
  ∧ length (Auth.exchanges r.1)
    = (length (Auth.exchanges s) + length r.2)%nat.
Proof.
  cbv zeta. revert s. induction evs as [| [now c] evs IH]; intros s.
  { cbn. split; [done | lia]. }
  cbn [Auth.run].
  assert ((exec now c s).2 = []
          ∧ length (Auth.exchanges (exec now c s).1.2)
            = length (Auth.exchanges s)
          ∨ (exec now c s).2
            = [Auth.HttpPost (length (Auth.exchanges s)) jwt_bearer grantToken]
            ∧ length (Auth.exchanges (exec now c s).1.2)
              = S (length (Auth.exchanges s))) as Hstep.
  { destruct c as [| | id o]; cbn [Auth.exec].
    - destruct (bind_ret_r (tokenGetter now) Some s) as [-> ->].
      unfold Auth.tokenGetter, bind, gets. cbn.
      destruct (Auth.fresh now (Auth.cachedToken s)); [by left |].
      destruct (truthy grantToken); [right | by left].
      cbn. rewrite length_app. cbn. split; [done | lia].
    - by left.
    - destruct (bind_ret_r (Auth.exchange_settled id o)
                  (λ _, @None Auth.promise) s) as [-> ->].
      left. unfold Auth.exchange_settled, bind, gets. cbn.
      destruct (Auth.exchanges s !! id) as [[T' | |] |]; try done.
      destruct (Auth.exchange_result o); cbn; by rewrite length_insert. }
  destruct (exec now c s) as [[c1 s1] t1]. cbn [fst snd] in Hstep.
  specialize (IH s1). destruct (run evs s1) as [s2 t2]. cbn [fst snd] in *.
  destruct IH as [IHt IHl].
  destruct Hstep as [[-> Hlen] | [-> Hlen]]; rewrite Hlen in IHt, IHl.
  - cbn [app]. split; [done | done].
  - cbn [app length seq fmap list_fmap]. split; [by f_equal | lia].
Qed.

(** X14.  No single flight: [tokenGetter] calls made while no valid token is
    cached start one exchange each. *)
Theorem exchanges_not_shared (times : list Z) (s : Auth.state) :
  truthy grantToken = true →
  Forall (λ now, Auth.fresh now (Auth.cachedToken s) = false) times →
  (run ((λ now, (now, Auth.TokenGetter)) <$> times) s).2
  = (λ id, Auth.HttpPost id jwt_bearer grantToken)
    <$> seq (length (Auth.exchanges s)) (length times).
Proof.
  intros Hg. revert s.
  induction times as [| now times IH]; intros s Hfresh; [done |].
  apply Forall_cons in Hfresh as [Hnow Hrest].
  rewrite fmap_cons. cbn [Auth.run Auth.exec].
  rewrite (bind_Normal _ _ _ _ _ _ (tokenGetter_exchanges now s Hnow Hg)).
  unfold ret. specialize (IH (Auth.exchanging now s) Hrest).
  destruct (run _ (Auth.exchanging now s)) as [s2 t2]. cbn [snd] in *.
  rewrite IH. cbn. rewrite length_app. cbn.
  by replace (length (Auth.exchanges s) + 1)%nat
    with (S (length (Auth.exchanges s))) by lia.
Qed.

(** X15.  Of two exchanges in flight the one answered last decides the cache:
    its token, with the expiry counted from its own start, replaces what the
    other stored, whichever of the two was started first. *)
Theorem last_answer_wins (s : Auth.state) (id1 id2 : nat) (T1 T2 : Z)
    (info1 info2 : Auth.tokenInfo) :
  id1 ≠ id2 →
  Auth.exchanges s !! id1 = Some (Auth.XPending T1) →
  Auth.exchanges s !! id2 = Some (Auth.XPending T2) →
  let s1 := (Auth.exchange_settled id1 (Auth.Response 200 info1) s).1.2 in
  let s2 := (Auth.exchange_settled id2 (Auth.Response 200 info2) s1).1.2 in
  Auth.cachedToken s1
  = Some {| Auth.token := Auth.access_token info1;
            Auth.expiresAt := T1 + Auth.expires_in info1 * 1000 |}
  ∧ Auth.cachedToken s2
    = Some {| Auth.token := Auth.access_token info2;
              Auth.expiresAt := T2 + Auth.expires_in info2 * 1000 |}.
Proof.
  intros Hne Hp1 Hp2.
  rewrite (exchange_settled_pending id1 _ s T1 Hp1).
  change (Auth.exchange_result (Auth.Response 200 info1)) with (Normal info1).
  cbv zeta. cbn [fst snd]. split; [done |].
  rewrite (exchange_settled_pending id2 _ _ T2).
  - by change (Auth.exchange_result (Auth.Response 200 info2))
      with (Normal info2).
  - cbn. by rewrite list_lookup_insert_ne.
Qed.

End AuthProperties.

(** * The theorems at sample inputs, and the runs that refute C2 and C6 *)

Import Examples.

Lemma load_cache_ttl_witness :
  Session.recorded (Session.lastLoadTime warm)
  ∧ Session.elapsed 301000 (Session.lastLoadTime warm) ≤ 300000
  ∧ Session.load 301000 warm = (Normal (Session.lastLoad warm), warm, []).
Proof.
  assert (Session.recorded (Session.lastLoadTime warm)) as Hrec
    by (vm_compute; reflexivity).
  assert (Session.elapsed 301000 (Session.lastLoadTime warm) ≤ 300000) as Hle
    by (vm_compute; discriminate).
  split; [exact Hrec |]. split; [exact Hle |].
  exact (proj1 (load_cache_ttl no_services xsrfHeaderName fromJson flash_has
                  301000 warm) Hrec Hle).
Defined.



(** An exchange started at 1000 and answered, after a second
    [tokenGetter] call has started an exchange of its own, with a token good
    for 60 seconds: the token is served up to 60999 and exchanged anew at
    61000. *)
Lemma token_expires_from_refresh_start_witness :
  let s1 := (Auth.tokenGetter publisher 1000 Auth.init).1.2 in
  let s2 := (Auth.run publisher
               [(1200, Auth.TokenGetter); (5000, Auth.ClearCache)] s1).1 in
  let s3 := (Auth.exchange_settled 0 (Auth.Response 200 minute_token) s2).1.2 in
  Auth.cachedToken s3
  = Some {| Auth.token := JStr "access-1"; Auth.expiresAt := 61000 |}
  ∧ Auth.tokenGetter publisher 60999 s3
    = (Normal (Auth.Resolved (JStr "access-1")), s3, [])
  ∧ (Auth.tokenGetter publisher 61000 s3).1.1 = Normal (Auth.Exchange 2).
Proof.
  assert ((Auth.tokenGetter publisher 1000 Auth.init).1.1
          = Normal (Auth.Exchange 0)) as Hstart by (vm_compute; reflexivity).
  assert (∀ now o, (now, Auth.ExchangeSettled 0 o)
                   ∉ [(1200, Auth.TokenGetter); (5000, Auth.ClearCache)])
    as Hevs.
  { intros now o Hin.
    repeat (apply elem_of_cons in Hin as [Hin | Hin]; [discriminate Hin |]).
    by apply elem_of_nil in Hin. }
  pose proof (token_expires_from_refresh_start publisher 1000 Auth.init 0 _
                minute_token Hstart Hevs) as (Hc & Hlt & _ & Hge).
  cbv zeta. split; [exact Hc |]. split.
  - apply (Hlt 60999). vm_compute. reflexivity.
  - rewrite (Hge 61000); [vm_compute; reflexivity |].
    vm_compute. discriminate.
Defined.

Lemma update_user_changed_witness :
  let t := (Session.update no_services xsrfHeaderName 1000 logged_in start).2 in
  Session.user_changed_events t
  = [JObj [("initialLoad"%string, JBool true);
           ("userid"%string, JStr "acct:u1@example.org")]]
  ∧ Session.AuthClearCache ∈ t
  ∧ Session.raven_calls t
    = [JObj [("id"%string, JStr "acct:u1@example.org")]].
Proof.
  assert (get_prop logged_in "userid" = Normal (JStr "acct:u1@example.org"))
    as Hu by reflexivity.
  assert (get_prop (Session.session start) "userid" = Normal JNull)
    as Hp by reflexivity.
  pose proof (update_user_changed no_services xsrfHeaderName 1000 logged_in
                start _ _ Hu Hp) as (Hchanged & _ & _).
  destruct (Hchanged eq_refl) as (Hev & Hauth & Hraven).
  cbv zeta. split; [exact Hev |]. split; [| exact Hraven].
  apply Hauth. reflexivity.
Defined.

Lemma load_failure_clears_timestamp_witness :
  let s1 := (Session.load 1000 start).1.2 in
  let s2 := (Session.load_settled 9000 0 (Throw (Error "offline")) s1).1.2 in
  Session.lastLoadTime s2 = Session.TNull
  ∧ Session.promises s2 !! 0%nat = Some (Session.Rejected (Error "offline"))
  ∧ Session.session s2 = logged_out
  ∧ Session.fetches (Session.load 9001 s2).2 = [1%nat].
Proof.
  assert (Session.promises (Session.load 1000 start).1.2 !! 0%nat
          = Some (Session.Pending Session.LoadChain)) as Hp by reflexivity.
  pose proof (load_failure_clears_timestamp 9000 0%nat (Error "offline") _ Hp)
    as (Ht & Hrej & Hsess & _ & _ & Hnext).
  cbv zeta. split; [exact Ht |]. split; [exact Hrej |]. split; [exact Hsess |].
  rewrite (Hnext 9001). reflexivity.
Defined.

(** Against C6 as stated.  [logout()] fails after an [update] at time 1000:
    the timestamp of that [update] is still recorded, neither cleared nor
    moved, and the next [load()] is served from the cache without any
    request. *)
Lemma logout_failure_keeps_timestamp :
  let r := Session.logout_settled 1 (Throw (Error "offline")) logging_out in
  Session.promises logging_out !! 1%nat
  = Some (Session.Pending Session.LogoutChain)
  ∧ Session.lastLoadTime logging_out = Session.TNum 1000
  ∧ Session.lastLoadTime r.1.2 = Session.TNum 1000
  ∧ Session.load 3000 r.1.2 = (Normal (Some 0%nat), r.1.2, []).
Proof. vm_compute. repeat split. Qed.

Lemma logout_failure_notice_witness :
  let r := Session.logout_settled 1 (Throw (Error "offline")) logging_out in
  r.2 = [Session.FlashMsg "error" (JStr "Log out failed")]
  ∧ Session.promises r.1.2 !! 1%nat = Some (Session.Rejected (Error "offline"))
  ∧ (Session.logout_settled 1 (Normal JUndefined) logging_out).2
    = [Session.AuthClearCache].
Proof.
  assert (Session.promises logging_out !! 1%nat
          = Some (Session.Pending Session.LogoutChain)) as Hp
    by (vm_compute; reflexivity).
  pose proof (logout_failure_notice 1 logging_out Hp) as [Hfail Hok].
  destruct (Hfail (Error "offline")) as (Ht & Hrej & _).
  destruct (Hok JUndefined) as (Hclear & _).
  cbv zeta. split; [exact Ht |]. split; [exact Hrej | exact Hclear].
Defined.

Lemma process_response_witness :
  let ok := Session.process no_services xsrfHeaderName fromJson_full flash_has
              1000 "full" 200 start in
  Session.process no_services xsrfHeaderName fromJson_full flash_has
    1000 "full" 502 start = (Normal JNull, start, [])
  ∧ ∃ m,
      ok.1.1 = Normal (JObj m)
      ∧ Session.session ok.1.2 = JObj m
      ∧ obj_get m "errors" = JObj [("password"%string, JStr "too short")]
      ∧ obj_get m "reason" = JStr "invalid"
      ∧ obj_get m "userid" = JStr "u1"
      ∧ obj_get m "flash" = JUndefined
      ∧ Session.notices ok.2
        = [("error"%string, JStr "bad thing"); ("info"%string, JStr "first");
           ("info"%string, JStr "second")].
Proof.
  pose proof (process_response no_services xsrfHeaderName fromJson_full
                flash_has 1000 "full" 502 start) as [Hout _].
  pose proof (process_response no_services xsrfHeaderName fromJson_full
                flash_has 1000 "full" 200 start) as [_ Hin].
  assert (200 ≤ 200 < 500) as Hrange by lia.
  assert (Forall (λ kv : string * jsval,
                    flash_has kv.1 = true ∧ ∃ msgs, kv.2 = JArr msgs)
            [("error"%string, JArr [JStr "bad thing"]);
             ("info"%string, JArr [JStr "first"; JStr "second"])]) as Hkinds
    by (repeat constructor; by eexists).
  destruct (Hin Hrange _
              [("userid"%string, JStr "u1"); ("errors"%string, JStr "stale")]
              _ eq_refl (or_introl eq_refl) (or_introl eq_refl) Hkinds)
    as (m & Hget & _ & _ & Hret).
  destruct (Hret eq_refl) as [Hval Hstored].
  cbv zeta. split; [apply Hout; right; lia |].
  exists m. split; [exact Hval |]. split; [exact Hstored |].
  split; [apply (Hget "errors"%string) |].
  split; [apply (Hget "reason"%string) |].
  split; [apply (Hget "userid"%string) |].
  split; [apply (Hget "flash"%string) |].
  vm_compute. reflexivity.
Defined.

Lemma sample_group_plain (fields : list (string * string)) :
  NoDup fields.*1 →
  Forall (λ kv, is_dollar (fst kv) = false) fields →
  plain (JObj ((λ kv, (fst kv, JStr (snd kv))) <$> fields)).
Proof.
  intros Hnd Hall. constructor.
  - rewrite <- list_fmap_compose. exact Hnd.
  - induction Hall as [| [k v] fields Hk _ IH]; constructor.
    + split; [exact Hk |]. split; [reflexivity | constructor].
    + apply IH. by apply NoDup_cons in Hnd as [_ Hnd].
Qed.

Lemma group_plain (id : string) : plain (group id).
Proof.
  apply (sample_group_plain [("id"%string, id); ("name"%string, id)]).
  - apply (bool_decide_unpack _). vm_compute. reflexivity.
  - repeat constructor.
Qed.

Lemma pair_plain (a b : jsval) : plain a → plain b → plain (JArr [a; b]).
Proof. intros Ha Hb. constructor. by repeat constructor. Qed.

Lemma group_neq (a b : string) : a ≠ b → ¬ deep_eq (group a) (group b).
Proof.
  intros Hab Hdeep. inversion Hdeep as [| | | | | | ? ? _ Hvals]; subst.
  assert (deep_eq (JStr a) (JStr b)) as Hid.
  { apply (Hvals "id"%string); apply list_elem_of_here. }
  inversion Hid; subst. done.
Qed.

(** The stored groups are [world] and [team]: the same groups again raise
    no event; the two swapped, the second without its [name], and the
    second under another [name] raise one each. *)
Lemma update_groups_changed_witness :
  let event := JObj [("initialLoad"%string, JBool false)] in
  Session.groups_changed_events
    (Session.update no_services xsrfHeaderName 2000 logged_in warm).2 = []
  ∧ Session.groups_changed_events
      (Session.update no_services xsrfHeaderName 2000 logged_in_swapped warm).2
    = [event]
  ∧ Session.groups_changed_events
      (Session.update no_services xsrfHeaderName 2000 logged_in_lost_name
         warm).2
    = [event]
  ∧ Session.groups_changed_events
      (Session.update no_services xsrfHeaderName 2000 logged_in_renamed warm).2
    = [event].
Proof.
  assert (get_prop (Session.session warm) "groups"
          = Normal (JArr [group "world"; group "team"])) as Hp
    by (vm_compute; reflexivity).
  assert (plain (JArr [group "world"; group "team"])) as Hstored
    by (apply pair_plain; apply group_plain).
  cbv zeta. split; [| split; [| split]].
  - destruct (update_groups_changed no_services xsrfHeaderName 2000 logged_in
                warm _ _ eq_refl Hp) as [_ Hplain].
    destruct (Hplain Hstored Hstored) as (_ & _ & Hsame & _).
    exact (Hsame eq_refl).
  - destruct (update_groups_changed no_services xsrfHeaderName 2000
                logged_in_swapped warm _ _ eq_refl Hp) as [_ Hplain].
    assert (plain (JArr [group "team"; group "world"])) as Hnew
      by (apply pair_plain; apply group_plain).
    destruct (Hplain Hnew Hstored) as (_ & _ & _ & _ & Hswap).
    refine (Hswap (group "team") (group "world") [] _ eq_refl eq_refl).
    apply group_neq. discriminate.
  - destruct (update_groups_changed no_services xsrfHeaderName 2000
                logged_in_lost_name warm _ _ eq_refl Hp) as [_ Hplain].
    assert (plain (JArr [group "world"; JObj [("id"%string, JStr "team")]]))
      as Hnew.
    { apply pair_plain; [apply group_plain |].
      apply (sample_group_plain [("id"%string, "team"%string)]).
      - apply (bool_decide_unpack _). vm_compute. reflexivity.
      - repeat constructor. }
    destruct (Hplain Hnew Hstored) as (_ & _ & _ & Harr & _).
    destruct (Harr _ _ eq_refl eq_refl) as (_ & _ & Hprop).
    refine (Hprop 1%nat _ _ "name"%string eq_refl eq_refl _).
    right. left. split; [| apply list_elem_of_further, list_elem_of_here].
    intros Hin. apply elem_of_cons in Hin as [Hin | Hin]; [discriminate |].
    by apply elem_of_nil in Hin.
  - destruct (update_groups_changed no_services xsrfHeaderName 2000
                logged_in_renamed warm _ _ eq_refl Hp) as [_ Hplain].
    assert (plain (JArr [group "world";
                         JObj [("id"%string, JStr "team");
                               ("name"%string, JStr "Team B")]])) as Hnew.
    { apply pair_plain; [apply group_plain |].
      apply (sample_group_plain
               [("id"%string, "team"%string); ("name"%string, "Team B"%string)]).
      - apply (bool_decide_unpack _). vm_compute. reflexivity.
      - repeat constructor. }
    destruct (Hplain Hnew Hstored) as (_ & _ & _ & Harr & _).
    destruct (Harr _ _ eq_refl eq_refl) as (_ & _ & Hprop).
    refine (Hprop 1%nat _ _ "name"%string eq_refl eq_refl _).
    right. right. exists (JStr "Team B"), (JStr "team").
    split; [apply list_elem_of_further, list_elem_of_here |].
    split; [apply list_elem_of_further, list_elem_of_here |].
    intros Hdeep. inversion Hdeep.
Defined.

Lemma failed_exchange_leaves_cache_witness :
  let s1 := (Auth.tokenGetter publisher 1000 Auth.init).1.2 in
  let r := Auth.exchange_settled 0 (Auth.Response 401 minute_token) s1 in
  r.2 = [] ∧ Auth.cachedToken r.1.2 = None
  ∧ (Auth.tokenGetter publisher 1500 r.1.2).1.1 = Normal (Auth.Exchange 1).
Proof.
  assert ((Auth.tokenGetter publisher 1000 Auth.init).1.1
          = Normal (Auth.Exchange 0)) as Hstart by (vm_compute; reflexivity).
  assert (Auth.exchange_failed (Auth.Response 401 minute_token)) as Hfail
    by (cbn; lia).
  pose proof (failed_exchange_leaves_cache publisher 1000 Auth.init 0 _
                Hstart Hfail) as (_ & Ht & Hc & Hnext).
  cbv zeta. split; [exact Ht |]. split; [exact Hc |].
  assert (1000 ≤ 1500) as Hmono by lia.
  destruct (Hnext 1500 Hmono) as [Heq _]. rewrite Heq. reflexivity.
Defined.

Lemma update_csrf_header_frame_witness :
  Session.headers warm !! xsrfHeaderName = Some (JStr "token-1")
  ∧ Session.headers
      (Session.update no_services xsrfHeaderName 2000 logged_out warm).1.2
    = Session.headers warm
  ∧ Forall (λ h : gmap string jsval, is_Some (h !! xsrfHeaderName))
      (Session.request_headers
         (Session.run no_services xsrfHeaderName fromJson flash_has
            [(2000, Session.Update logged_out); (3000, Session.Logout);
             (400000, Session.Load); (400000, Session.LoadOperation)] warm).2).
Proof.
  pose proof (update_csrf_header_frame no_services xsrfHeaderName fromJson
                flash_has 1000 logged_in start) as (_ & _ & Hset & _).
  pose proof (update_csrf_header_frame no_services xsrfHeaderName fromJson
                flash_has 2000 logged_out warm) as (_ & Hkeep & _ & Hrun).
  split; [| split].
  - apply Hset; reflexivity.
  - apply Hkeep. reflexivity.
  - apply Hrun. exists (JStr "token-1"). apply Hset; reflexivity.
Defined.

(** * The actions of the resource *)

Lemma actions_get_set_eq (o : list (string * Actions.field)) (k : string)
    (v : Actions.field) :
  Actions.get (Actions.set o k v) k = Some v.
Proof.
  induction o as [| [k' v'] o IH]; cbn.
  - by rewrite String.eqb_refl.
  - destruct (String.eqb_spec k' k) as [-> | Hne]; cbn.
    + by rewrite String.eqb_refl.
    + by destruct (String.eqb_spec k' k).
Qed.

Lemma actions_get_set_ne (o : list (string * Actions.field)) (k k' : string)
    (v : Actions.field) :
  k ≠ k' → Actions.get (Actions.set o k v) k' = Actions.get o k'.
Proof.
  intros Hne. induction o as [| [k0 v0] o IH]; cbn.
  - by destruct (String.eqb_spec k k').
  - destruct (String.eqb_spec k0 k) as [-> | Hk0]; cbn.
    + by destruct (String.eqb_spec k k').
    + destruct (String.eqb_spec k0 k'); [done | apply IH].
Qed.

Lemma actions_get_None (o : list (string * Actions.field)) (k : string) :
  k ∉ o.*1 → Actions.get o k = None.
Proof.
  induction o as [| [k' v'] o IH]; cbn; [done |]. intros Hk.
  apply not_elem_of_cons in Hk as [Hne Hk].
  destruct (String.eqb_spec k' k); [congruence | by apply IH].
Qed.

Lemma get_object_assign (target source : list (string * Actions.field))
    (k : string) :
  NoDup source.*1 →
  Actions.get (Actions.object_assign target source) k
  = match Actions.get source k with
    | Some v => Some v
    | None => Actions.get target k
    end.
Proof.
  unfold Actions.object_assign. revert target.
  induction source as [| [k0 v0] source IH]; intros target Hnd; [done |].
  cbn in Hnd. apply NoDup_cons in Hnd as [Hk0 Hnd].
  cbn [fold_left fst snd Actions.get]. rewrite (IH _ Hnd).
  destruct (String.eqb_spec k0 k) as [-> | Hne].
  - by rewrite (actions_get_None source k Hk0), actions_get_set_eq.
  - by rewrite actions_get_set_ne.
Qed.

(** X16.  [sessionActions(options)] returns the three actions under their names,
    each with every option laid over it: an option wins over a field of the
    same name, and a field no option names is kept. *)
Theorem sessionActions_options (options : list (string * Actions.field)) :
  NoDup options.*1 →
  (Actions.sessionActions options).*1
  = ["login"%string; "logout"%string; "_load"%string]
  ∧ ∀ name own,
      Actions.action_named Actions.actions name = Some own →
      ∃ a, Actions.action_named (Actions.sessionActions options) name = Some a
           ∧ ∀ k, Actions.get a k
                  = match Actions.get options k with
                    | Some v => Some v
                    | None => Actions.get own k
                    end.
Proof.
  intros Hnd. split; [done |]. intros name own Hown.
  unfold Actions.sessionActions, Actions.actions in *.
  cbn [fmap list_fmap Actions.action_named fst snd] in *.
  repeat (destruct (String.eqb _ name);
          [injection Hown as <-; eexists; split; [reflexivity |];
           intros k; by apply get_object_assign |]).
  done.
Qed.

(** * The further properties at sample inputs *)

Lemma update_event_order_witness :
  Session.broadcasts
    (Session.update no_services xsrfHeaderName 1000 logged_in start).2
  = [(Session.USER_CHANGED,
      JObj [("initialLoad"%string, JBool true);
            ("userid"%string, JStr "acct:u1@example.org")]);
     (Session.GROUPS_CHANGED, JObj [("initialLoad"%string, JBool true)])].
Proof.
  rewrite (update_event_order no_services xsrfHeaderName 1000 logged_in start)
    by reflexivity.
  vm_compute. reflexivity.
Defined.

Lemma update_rejects_nullish_witness :
  Session.update no_services xsrfHeaderName 2000 JNull warm
  = (Throw TypeError, warm, []).
Proof.
  apply (update_rejects_nullish no_services xsrfHeaderName fromJson flash_has
           2000 JNull warm).
  left. reflexivity.
Defined.

Lemma group_wf (id : string) : wf (group id).
Proof.
  constructor; [| reflexivity | repeat constructor].
  apply (bool_decide_unpack _). vm_compute. reflexivity.
Qed.

Lemma update_same_model_silent_witness :
  (Session.update no_services xsrfHeaderName 2000 logged_in warm).2 = [].
Proof.
  assert (wf (prop logged_in "groups")) as Hwf.
  { constructor. constructor; [apply group_wf |].
    constructor; [apply group_wf | constructor]. }
  pose proof (update_same_model_silent no_services xsrfHeaderName 1000 2000
                logged_in start eq_refl eq_refl I Hwf) as (_ & _ & Hsilent).
  exact Hsilent.
Defined.

Lemma load_success_restarts_window_witness :
  let s2 := (Session.load_settled 400001 0
               (Normal (JObj [("userid"%string, JStr "u1")])) answered).1.2 in
  Session.lastLoad answered = Some 1%nat
  ∧ Session.lastLoadTime answered = Session.TNum 400000
  ∧ Session.lastLoadTime s2 = Session.TNum 400001
  ∧ Session.load 700001 s2 = (Normal (Some 1%nat), s2, []).
Proof.
  assert (Session.promises answered !! 0%nat
          = Some (Session.Pending Session.LoadChain)) as Hp by reflexivity.
  assert (400001 ≠ 0) as Hdone by lia.
  assert (700001 - 400001 ≤ 300000) as Hle by lia.
  pose proof (load_success_restarts_window 400001 700001
                (JObj [("userid"%string, JStr "u1")]) 0 answered
                Hp Hdone Hle) as (Htime & _ & _ & _ & _ & Hload).
  cbv zeta. split; [reflexivity |]. split; [reflexivity |].
  split; [exact Htime | exact Hload].
Defined.

Lemma epoch_reading_not_recorded_witness :
  Session.fetches
    (Session.load 1
       (Session.update no_services xsrfHeaderName 0 logged_in start).1.2).2
  = [1%nat].
Proof.
  pose proof (epoch_reading_not_recorded no_services xsrfHeaderName logged_in
                start 1 eq_refl eq_refl) as (_ & _ & Hfetch).
  rewrite Hfetch. vm_compute. reflexivity.
Defined.

Lemma process_malformed_body_witness :
  Session.process no_services xsrfHeaderName fromJson flash_has
    2000 "<html>" 404 warm
  = (Throw SyntaxError, warm, []).
Proof.
  assert (200 ≤ 404 < 500) as Hrange by lia.
  pose proof (process_malformed_body no_services xsrfHeaderName fromJson
                flash_has 2000 "<html>" 404 warm Hrange) as (Hparse & _).
  apply Hparse. reflexivity.
Defined.

Lemma process_unknown_flash_kind_witness :
  Session.process no_services xsrfHeaderName fromJson_samples flash_has
    2000 "bogus-kind" 200 warm
  = (Throw TypeError, warm, [Session.FlashMsg "info" (JStr "saved")]).
Proof.
  assert (200 ≤ 200 < 500) as Hrange by lia.
  assert (Forall (λ kv : string * jsval,
                    flash_has kv.1 = true ∧ ∃ l, kv.2 = JArr l)
            [("info"%string, JArr [JStr "saved"])]) as Hpre
    by (repeat constructor; by eexists).
  exact (process_unknown_flash_kind no_services xsrfHeaderName
           fromJson_samples flash_has 2000 "bogus-kind" 200 warm
           _ [] [("info"%string, JArr [JStr "saved"])]
           [("error"%string, JArr [JStr "late"])] "bogus" (JStr "x") []
           Hrange eq_refl (or_intror (conj eq_refl eq_refl)) eq_refl Hpre
           eq_refl).
Defined.

Lemma process_model_fields_witness :
  ∃ m, (Session.process no_services xsrfHeaderName fromJson_samples flash_has
          2000 "login-failed" 400 warm).1.1 = Normal (JObj m)
       ∧ obj_get m "errors" = JObj [("username"%string, JStr "required")]
       ∧ obj_get m "reason" = JStr "denied"
       ∧ obj_get m "userid" = JNull.
Proof.
  assert (200 ≤ 400 < 500) as Hrange by lia.
  destruct (process_model_fields no_services xsrfHeaderName fromJson_samples
              flash_has 2000 "login-failed" 400 warm _
              [("userid"%string, JNull); ("errors"%string, JStr "stale")] []
              Hrange eq_refl (or_introl eq_refl)
              (or_intror (conj eq_refl eq_refl)) (Forall_nil_2 _) eq_refl)
    as (m & Hret & _ & Hget).
  exists m. split; [exact Hret |].
  split; [exact (Hget "errors"%string) |].
  split; [exact (Hget "reason"%string) | exact (Hget "userid"%string)].
Defined.

Lemma only_update_writes_store_witness :
  let r := Session.run no_services xsrfHeaderName fromJson flash_has
             [(2000, Session.Logout);
              (2500, Session.LogoutSettled 1 (Normal JUndefined));
              (400000, Session.Load); (400000, Session.LoadOperation)] warm in
  Session.session r.1 = Session.session warm ∧ Session.broadcasts r.2 = [].
Proof.
  assert (Forall (λ e : Z * Session.call, Session.runs_update e.2 = false)
            [(2000, Session.Logout);
             (2500, Session.LogoutSettled 1 (Normal JUndefined));
             (400000, Session.Load); (400000, Session.LoadOperation)]) as Hevs
    by (repeat constructor).
  pose proof (only_update_writes_store no_services xsrfHeaderName fromJson
                flash_has _ warm Hevs) as (Hs & _ & Hb & _).
  split; [exact Hs | exact Hb].
Defined.

Lemma authority_decides_fetch_source_witness :
  let t := (Session.run publisher xsrfHeaderName fromJson flash_has
              [(1000, Session.Load); (1000, Session.LoadOperation);
               (1200, Session.Update logged_in)] start).2 in
  (Session.AuthClearCache ∉ t)
  ∧ (Session.ResourceRequest Session.load_action ∅ ∉ t)
  ∧ (Session.ProfileRead (JObj [("authority"%string, JStr "publisher.org")])
     ∉ (Session.run no_services xsrfHeaderName fromJson flash_has
          [(1000, Session.Load); (1000, Session.LoadOperation)] start).2).
Proof.
  pose proof (authority_decides_fetch_source publisher xsrfHeaderName fromJson
                flash_has
                [(1000, Session.Load); (1000, Session.LoadOperation);
                 (1200, Session.Update logged_in)] start) as [Hwith _].
  pose proof (authority_decides_fetch_source no_services xsrfHeaderName
                fromJson flash_has
                [(1000, Session.Load); (1000, Session.LoadOperation)] start)
    as [_ Hwithout].
  destruct (Hwith eq_refl) as [Hreq Hclear].
  cbv zeta. split; [| split].
  - apply Hclear. repeat constructor.
  - apply Hreq.
  - apply Hwithout. reflexivity.
Defined.

Lemma no_grant_token_no_request_witness :
  Auth.run no_services
    [(1000, Auth.TokenGetter); (2000, Auth.ClearCache);
     (3000, Auth.ExchangeSettled 0 (Auth.Response 200 minute_token));
     (4000, Auth.TokenGetter)] Auth.init
  = (Auth.init, []).
Proof.
  apply (no_grant_token_no_request no_services _ 0). reflexivity.
Defined.

Lemma exchanges_not_shared_witness :
  (Auth.run publisher
     [(1000, Auth.TokenGetter); (1001, Auth.TokenGetter);
      (1002, Auth.TokenGetter)] Auth.init).2
  = [Auth.HttpPost 0 "urn:ietf:params:oauth:grant-type:jwt-bearer"
       (JStr "grant-jwt");
     Auth.HttpPost 1 "urn:ietf:params:oauth:grant-type:jwt-bearer"
       (JStr "grant-jwt");
     Auth.HttpPost 2 "urn:ietf:params:oauth:grant-type:jwt-bearer"
       (JStr "grant-jwt")].
Proof.
  assert (Forall (λ now, Auth.fresh now (Auth.cachedToken Auth.init) = false)
            [1000; 1001; 1002]) as Hfresh by (repeat constructor).
  exact (exchanges_not_shared publisher [1000; 1001; 1002] Auth.init eq_refl
           Hfresh).
Defined.

(** The exchange started second is answered first with a long-lived token;
    the answer to the first, a token for one second, then takes the cache
    and expires at 2000. *)
Lemma last_answer_wins_witness :
  let s := (Auth.run publisher
              [(1000, Auth.TokenGetter); (1500, Auth.TokenGetter)]
              Auth.init).1 in
  let s1 := (Auth.exchange_settled 1 (Auth.Response 200 minute_token) s).1.2 in
  let s2 := (Auth.exchange_settled 0
               (Auth.Response 200
                  {| Auth.access_token := JStr "access-0";
                     Auth.expires_in := 1 |}) s1).1.2 in
  Auth.cachedToken s2
  = Some {| Auth.token := JStr "access-0"; Auth.expiresAt := 1000 + 1 * 1000 |}.
Proof.
  assert (1%nat ≠ 0%nat) as Hne by lia.
  pose proof (last_answer_wins
                (Auth.run publisher
                   [(1000, Auth.TokenGetter); (1500, Auth.TokenGetter)]
                   Auth.init).1
                1 0 1500 1000 minute_token
                {| Auth.access_token := JStr "access-0"; Auth.expires_in := 1 |}
                Hne eq_refl eq_refl) as [_ Hlast].
  exact Hlast.
Defined.

(** With the options of the session service every action holds the one
    [headers] object and [process], sends credentials, and keeps the method
    and parameters the records of the transition system give it. *)
Lemma sessionActions_options_witness :
  Forall (λ r : Session.action,
            ∃ a, Actions.action_named
                   (Actions.sessionActions Actions.session_options)
                   (Session.action_name r) = Some a
                 ∧ Actions.get a "headers" = Some Actions.HeadersRef
                 ∧ Actions.get a "transformResponse" = Some Actions.ProcessFn
                 ∧ Actions.get a "withCredentials"
                   = Some (Actions.Json (JBool (Session.withCredentials r)))
                 ∧ Actions.get a "method"
                   = Some (Actions.Json (JStr (Session.method r))))
    Session.sessionActions.
Proof.
  assert (NoDup Actions.session_options.*1) as Hnd
    by (apply (bool_decide_unpack _); vm_compute; reflexivity).
  destruct (sessionActions_options Actions.session_options Hnd) as [_ Hact].
  repeat constructor.
  - destruct (Hact "login"%string _ eq_refl) as (a & Ha & Hget).
    exists a. split; [exact Ha |]. by rewrite !Hget.
  - destruct (Hact "logout"%string _ eq_refl) as (a & Ha & Hget).
    exists a. split; [exact Ha |]. by rewrite !Hget.
  - destruct (Hact "_load"%string _ eq_refl) as (a & Ha & Hget).
    exists a. split; [exact Ha |]. by rewrite !Hget.
Defined.

Lemma load_after_ttl_fetches_witness :
  ∃ p, (Session.load 301001 warm).1.1 = Normal (Some p)
       ∧ Session.fetches (Session.load 301001 warm).2 = [p]
       ∧ Session.lastLoad warm ≠ Some p.
Proof.
  assert (Session.cache_inv warm) as Hinv by (vm_compute; lia).
  assert (300000 < 301001 - 1000) as Hgt by lia.
  destruct (load_after_ttl_fetches 301001 1000 warm Hinv eq_refl Hgt)
    as (p & Hret & Hfetch & _ & _ & Hnew & _).
  exists p. split; [exact Hret |]. split; [exact Hfetch | exact Hnew].
Defined.
